(** * Divvy trip-data downloader: a shallow embedding and its properties

    The program under study is [data-downloader/divvy-data-downloader.py]:
    it probes a grid of (year, month) file names on a remote store, keeps
    the ones that answer, filters them by year and quarter, and downloads
    the selection into a local directory, skipping files that are already
    there with the right size.

    Python integers are [Z]; an argument that may be [None] is an
    [option Z]; strings are [string]; dictionaries are [gmap]; exceptions
    are values of [exn] carried by [result]. *)

From Stdlib Require Import ZArith List Ascii String Sorting.Sorted.
From stdpp Require Import base option list list_numbers sorting strings pretty gmap.

Local Open Scope Z_scope.

(** ** Python values and exceptions *)

Module Py.

(** The exception classes the program can meet.  [HTTPError] is a
    subclass of [RequestException]; the four file-system errors are
    subclasses of [OSError]; all of them derive from [Exception]. *)
Inductive exn : Type :=
| ValueError (msg : string)
| OverflowError
| KeyError
| RequestException
| HTTPError (status : Z)
| FileNotFoundError
| FileExistsError
| NotADirectoryError
| IsADirectoryError.

Definition is_RequestException (e : exn) : bool :=
  match e with
  | RequestException | HTTPError _ => true
  | _ => false
  end.

Definition is_FileExistsError (e : exn) : bool :=
  match e with
  | FileExistsError => true
  | _ => false
  end.

Inductive result (A : Type) : Type :=
| Ok (a : A)
| Raise (e : exn).
Arguments Ok {A} a.
Arguments Raise {A} e.

Definition rbind {A B} (r : result A) (k : A -> result B) : result B :=
  match r with
  | Ok a => k a
  | Raise e => Raise e
  end.

(** Truth value of an argument that is an [int] or [None]:
    [None] and [0] are false, every other integer is true. *)
Definition truthy (a : option Z) : bool :=
  match a with
  | None => false
  | Some z => negb (z =? 0)
  end.

(** [x == a] for an integer [x] and an argument [a]. *)
Definition eq_arg (x : Z) (a : option Z) : bool :=
  match a with
  | None => false
  | Some z => x =? z
  end.

(** [a in l] for a list [l] of integers. *)
Definition arg_in (a : option Z) (l : list Z) : bool :=
  existsb (fun x => eq_arg x a) l.

(** [x in l] for integers. *)
Definition int_in (x : Z) (l : list Z) : bool :=
  existsb (Z.eqb x) l.

(** [range(a, b)]. *)
Definition range (a b : Z) : list Z := seqZ a (b - a).

(** [str(z)], also what [f"{z}"] prints. *)
Definition str (z : Z) : string := pretty z.

(** [f"{z:0<w>d}"]: the decimal digits, sign first, zero-filled on the
    left up to [w] characters. *)
Fixpoint zeros (n : nat) : string :=
  match n with
  | O => EmptyString
  | S n' => String "0" (zeros n')
  end.

Definition format_0d (w : nat) (z : Z) : string :=
  let digits := pretty (Z.abs z) in
  let sign := if z <? 0 then "-"%string else EmptyString in
  let used := (String.length sign + String.length digits)%nat in
  (sign +:+ zeros (w - used) +:+ digits)%string.

(** [s.isdigit()] on a header value.  Header bytes are decoded as
    Latin-1, where the characters with the Unicode digit property are
    "0".."9" and the superscripts U+00B2, U+00B3 and U+00B9. *)
Definition is_decimal_char (c : ascii) : bool :=
  let n := N_of_ascii c in ((48 <=? n) && (n <=? 57))%N.

Definition is_digit_char (c : ascii) : bool :=
  let n := N_of_ascii c in
  (is_decimal_char c || (n =? 178) || (n =? 179) || (n =? 185))%N.

Fixpoint all_chars (p : ascii -> bool) (s : string) : bool :=
  match s with
  | EmptyString => true
  | String c s' => p c && all_chars p s'
  end.

Definition isdigit (s : string) : bool :=
  match s with
  | EmptyString => false
  | _ => all_chars is_digit_char s
  end.

(** [repr(s)] for a string of Latin-1 characters.  The string is put
    between single quotes, or between double quotes when it holds a
    single quote and no double quote; the backslash, the quote in use,
    tab, newline and carriage return are written with a backslash, and
    any other character that is not printable is written as a
    backslash, an x and its two hexadecimal digits. *)
Definition backslash : ascii := ascii_of_N 92.
Definition single_quote : ascii := ascii_of_N 39.
Definition double_quote : ascii := ascii_of_N 34.

Definition is_printable_char (c : ascii) : bool :=
  let n := N_of_ascii c in
  (((32 <=? n) && (n <? 127)) || ((161 <=? n) && negb (n =? 173)))%N.

Definition hex_digit (n : N) : ascii :=
  ascii_of_N (if (n <? 10)%N then 48 + n else 87 + n).

Definition escaped (c : ascii) : string := String backslash (String c EmptyString).

Definition repr_char (quote c : ascii) : string :=
  let n := N_of_ascii c in
  if (n =? 92)%N then escaped backslash
  else if Ascii.eqb c quote then escaped quote
  else if (n =? 9)%N then escaped "t"
  else if (n =? 10)%N then escaped "n"
  else if (n =? 13)%N then escaped "r"
  else if is_printable_char c then String c EmptyString
  else String backslash
         (String "x" (String (hex_digit (n / 16)) (String (hex_digit (n mod 16))
            EmptyString))).

Fixpoint has_char (c : ascii) (s : string) : bool :=
  match s with
  | EmptyString => false
  | String c' s' => Ascii.eqb c c' || has_char c s'
  end.

Fixpoint repr_chars (quote : ascii) (s : string) : string :=
  match s with
  | EmptyString => EmptyString
  | String c s' => (repr_char quote c +:+ repr_chars quote s')%string
  end.

Definition repr (s : string) : string :=
  let quote :=
    if has_char single_quote s && negb (has_char double_quote s)
    then double_quote else single_quote in
  String quote (repr_chars quote s +:+ String quote EmptyString)%string.

(** [int(s)].  White space around the literal is dropped (the ASCII
    white space and, of Latin-1, U+0085 and U+00A0), one sign is
    allowed, and single underscores may separate digits; anything else
    is a [ValueError], and so is a literal of more digits than the
    interpreter converts: 4300 by default, in the releases that have
    the limit (3.9.14 and later). *)
Definition is_space_char (c : ascii) : bool :=
  let n := N_of_ascii c in
  (((9 <=? n) && (n <=? 13)) || (n =? 32) || (n =? 133) || (n =? 160))%N.

Fixpoint lstrip (s : string) : string :=
  match s with
  | String c s' => if is_space_char c then lstrip s' else s
  | EmptyString => EmptyString
  end.

Definition digit_value (c : ascii) : Z := Z.of_N (N_of_ascii c) - 48.

(** The run of digits at the head of a literal: its value, the number
    of its digits and what follows it.  Underscores may stand between
    two digits only; [after_digit] tells whether the previous character
    was a digit. *)
Inductive scanned : Type :=
| Malformed
| Scanned (value : Z) (digits : nat) (rest : string).

Fixpoint scan_digits (s : string) (acc : Z) (digits : nat) (after_digit : bool)
  : scanned :=
  match s with
  | EmptyString => if after_digit then Scanned acc digits EmptyString else Malformed
  | String c s' =>
      if is_decimal_char c
      then scan_digits s' (10 * acc + digit_value c) (S digits) true
      else if (N_of_ascii c =? 95)%N
      then if after_digit then scan_digits s' acc digits false else Malformed
      else if after_digit then Scanned acc digits s else Malformed
  end.

Definition max_str_digits : nat := 4300.

(** The message is formatted with [%.200R]: at most 200 characters of
    the [repr] of the argument. *)
Definition int_error (s : string) : exn :=
  ValueError ("invalid literal for int() with base 10: "
              +:+ String.substring 0 200 (repr s)).

Definition int_limit_error (digits : nat) : exn :=
  ValueError ("Exceeds the limit (4300 digits) for integer string conversion: value has "
              +:+ pretty digits
              +:+ " digits; use sys.set_int_max_str_digits() to increase the limit").

(** The sign in front of a literal, if there is one: whether it is a
    minus, and the literal after it. *)
Definition split_sign (body : string) : bool * string :=
  match body with
  | String "-" t => (true, t)
  | String "+" t => (false, t)
  | _ => (false, body)
  end.

Definition int (s : string) : result Z :=
  let '(negative, literal) := split_sign (lstrip s) in
  match scan_digits literal 0 0 false with
  | Malformed => Raise (int_error s)
  | Scanned value digits rest =>
      if (max_str_digits <? digits)%nat then Raise (int_limit_error digits)
      else if all_chars is_space_char rest
      then Ok (if negative : bool then - value else value)
      else Raise (int_error s)
  end.

(** *** Floating point *)

(** Python's [float] is the IEEE 754 binary64 format: 53 significant
    bits, results rounded to the nearest representable number, ties to
    the one with an even significand. *)

(** The integer nearest to [num / 2 ^ k], ties to the even one. *)
Definition round_half_even_shift (num k : Z) : Z :=
  let den := 2 ^ k in
  let q := num / den in
  let r := num mod den in
  if 2 * r <? den then q
  else if den <? 2 * r then q + 1
  else if Z.even q then q else q + 1.

(** [float(n)] for [n >= 0], as a significand and an exponent: the
    result is [m * 2 ^ e]. *)
Definition nearest_float (n : Z) : Z * Z :=
  let excess := Z.log2 n + 1 - 53 in
  if excess <=? 0 then (n, 0) else (round_half_even_shift n excess, excess).

(** Whether the true division [n / 2 ** k] of two integers has a
    result: it raises [OverflowError] when the nearest number of the
    format would be 2 ** 1024 or more. *)
Definition quotient_fits (n k : Z) : bool :=
  let '(m, e) := nearest_float (Z.abs n) in m * 2 ^ e <? 2 ^ (1024 + k).

(** Whether [float(n)] exists, under the same rule. *)
Definition fits_float (n : Z) : bool := quotient_fits n 0.

(** [round(n / 2 ** k, 2)], as the number of hundredths the result
    denotes: the quotient is rounded to the format first, and [round]
    then takes the nearest multiple of 0.01 of that number, ties to the
    even one. *)
Definition round2_quotient (n k : Z) : Z :=
  let '(m, e) := nearest_float (Z.abs n) in
  Z.sgn n * (if k <=? e then 100 * m * 2 ^ (e - k)
             else round_half_even_shift (100 * m) (k - e)).

End Py.

Import Py.

(** ** The data model *)

(** One discovered remote file: the dictionary built in
    [get_available_files].  [size_mb] is [round(size / 2**20, 2)]; the
    record keeps the number of hundredths the rounded value denotes. *)
Record FileRecord : Type := mkFile {
  filename : string;
  url : string;
  size : Z;
  size_mb : Z;
  year : Z;
  month : Z
}.

Global Instance FileRecord_eq_dec : EqDecision FileRecord.
Proof. solve_decision. Defined.

Abbreviation Catalog := (list FileRecord).

(** ** The filter stage *)

Module Filters.

(** [filter_files_by_year(files, year)] *)
Definition filter_files_by_year (files : list FileRecord) (year_arg : option Z)
  : list FileRecord :=
  if negb (truthy year_arg) then files
  else List.filter (fun file => eq_arg (year file) year_arg) files.

(** The [quarter_months] dictionary. *)
Definition quarter_months : gmap Z (list Z) :=
  list_to_map [(1, [1; 2; 3]); (2, [4; 5; 6]); (3, [7; 8; 9]); (4, [10; 11; 12])].

(** [quarter_months[quarter]] *)
Definition quarter_months_at (quarter_arg : option Z) : result (list Z) :=
  match quarter_arg ≫= (quarter_months !!.) with
  | Some months => Ok months
  | None => Raise KeyError
  end.

(** The condition of the list comprehension, with the short-circuit
    [and]: the dictionary is only consulted when the year matches. *)
Definition quarter_condition (year_arg quarter_arg : option Z) (file : FileRecord)
  : result bool :=
  if eq_arg (year file) year_arg
  then rbind (quarter_months_at quarter_arg)
             (fun months => Ok (int_in (month file) months))
  else Ok false.

(** [[file for file in files if cond(file)]] for a condition that may raise. *)
Fixpoint comprehension (cond : FileRecord -> result bool) (files : list FileRecord)
  : result (list FileRecord) :=
  match files with
  | [] => Ok []
  | file :: rest =>
      rbind (cond file) (fun keep =>
      rbind (comprehension cond rest) (fun kept =>
      Ok (if keep then file :: kept else kept)))
  end.

Definition quarter_error : exn := ValueError "Quarter must be 1, 2, 3, or 4".

(** [filter_files_by_quarter(files, year, quarter)] *)
Definition filter_files_by_quarter
    (files : list FileRecord) (year_arg quarter_arg : option Z)
  : result (list FileRecord) :=
  if negb (truthy year_arg) || negb (truthy quarter_arg) then Ok files
  else if negb (arg_in quarter_arg [1; 2; 3; 4]) then Raise quarter_error
  else comprehension (quarter_condition year_arg quarter_arg) files.

(** *** The filters as the specification words them *)

(** The fixed three-month group of a quarter. *)
Definition quarter_group (q : Z) : list Z :=
  if decide (q = 1) then [1; 2; 3]
  else if decide (q = 2) then [4; 5; 6]
  else if decide (q = 3) then [7; 8; 9]
  else if decide (q = 4) then [10; 11; 12]
  else [].

Definition valid_quarter (q : Z) : Prop := q ∈ [1; 2; 3; 4].

(** "exactly the records whose year equals the given value, preserving
    relative order" *)
Definition records_of_year (y : Z) (catalog : Catalog) : Catalog :=
  filter (λ r, year r = y) catalog.

(** "exactly the records whose year equals the given year and whose
    month lies in the quarter's group, preserving relative order" *)
Definition records_of_quarter (y q : Z) (catalog : Catalog) : Catalog :=
  filter (λ r, year r = y ∧ month r ∈ quarter_group q) catalog.

End Filters.

(** ** The outside world: local files, the remote store, the console *)

Module World.

(** A path is kept as the list of its components below the working
    directory, so [os.path.join(d, name)] appends one component and
    [os.path.dirname] drops the last one.  The empty list is the empty
    string, which names no file. *)
Abbreviation path := (list string).

Definition join (directory : path) (name : string) : path := directory ++ [name].
Definition dirname (p : path) : path := removelast p.

Inductive node : Type :=
| File (content : list Byte.byte)
| Dir (st_size : Z).

(** What [os.path.getsize] reports for a directory made by [os.mkdir];
    the value depends on the platform and nothing below relies on it. *)
Definition fresh_dir_size : Z := 4096.

Inductive request : Type :=
| HEAD (url : string)
| GET (url : string).

(** The lines the program prints, one constructor per [print] call. *)
Inductive line : Type :=
| Discovering
| FoundFile (name : string) (mb : Z)
| NoFilesFound
| FoundTotal (n : nat)
| FilteredByYear (y : option Z) (n : nat)
| FilteredByQuarter (y q : option Z) (n : nat)
| NoFilesMatch
| TotalDownloadSize (parts : list Z)
| AvailableFiles
| Listed (name : string) (mb : Z)
| DownloadingTo (n : nat) (output_dir : path)
| Skipping (name : string)
| Downloading (name : string) (mb : Z)
| ErrorDownloading (url : string) (e : exn)
| DownloadComplete (successful : Z) (total : nat)
| FilesSavedTo (output_dir : path).

Record world : Type := mkWorld {
  fs : gmap path node;
  requests : list request;
  stdout : list line
}.

(** What the remote store answers.  A HEAD or GET either raises a
    [RequestException] (time-out, refused connection, DNS failure) or
    returns a status with an optional [Content-Length] header; the body
    of a GET arrives as the chunks [iter_content] yields, and the
    stream may break after the last of them.

    A session follows redirects on GET and not on HEAD.  For a GET of
    [u], [redirects_of u] lists the URLs the session is sent on to and
    requests in turn, and [get_of u] is how the exchange ends: with the
    response of the last of them, or with a failure (which may be that
    of too many redirects). *)
Inductive head_result : Type :=
| HeadFails
| HeadResponse (status : Z) (content_length : option string).

Record response : Type := mkResponse {
  status_code : Z;
  content_length_header : option string;
  chunks : list (list Byte.byte);
  complete : bool
}.

Inductive get_result : Type :=
| GetFails
| GetResponse (r : response).

Record network : Type := mkNetwork {
  head_of : string -> head_result;
  get_of : string -> get_result;
  redirects_of : string -> list string
}.

(** [urllib.parse.urljoin] is library code: [joined base name] is the
    URL it returns, and [join_error base name] is the message of the
    [ValueError] it raises instead for a base it cannot parse. *)
Record url_joiner : Type := mkJoiner {
  joined :> string -> string -> string;
  join_error : string -> string -> option string
}.

(** *** A state and exception monad over [world] *)

Definition M (A : Type) : Type := world -> result A * world.

Definition ret {A} (a : A) : M A := fun w => (Ok a, w).

Definition bind {A B} (c : M A) (k : A -> M B) : M B :=
  fun w =>
    match c w with
    | (Ok a, w') => k a w'
    | (Raise e, w') => (Raise e, w')
    end.

Definition raise {A} (e : exn) : M A := fun w => (Raise e, w).

Definition lift {A} (r : result A) : M A := fun w => (r, w).

(** [try: body except <catches> as e: handler(e)] *)
Definition try_except {A} (body : M A) (catches : exn -> bool) (handler : exn -> M A)
  : M A :=
  fun w =>
    match body w with
    | (Ok a, w') => (Ok a, w')
    | (Raise e, w') => if catches e then handler e w' else (Raise e, w')
    end.

Definition except_Exception (e : exn) : bool := true.
Definition except_OSError (e : exn) : bool :=
  match e with
  | FileNotFoundError | FileExistsError | NotADirectoryError | IsADirectoryError => true
  | _ => false
  end.

Definition when (b : bool) (c : M unit) : M unit := if b then c else ret tt.

(** [for x in xs: acc = body(acc, x)] *)
Fixpoint for_each {A B} (body : B -> A -> M B) (xs : list A) (acc : B) : M B :=
  match xs with
  | [] => ret acc
  | x :: rest => bind (body acc x) (for_each body rest)
  end.

Definition get_fs : M (gmap path node) := fun w => (Ok (fs w), w).
Definition put_fs (m : gmap path node) : M unit :=
  fun w => (Ok tt, mkWorld m (requests w) (stdout w)).
Definition print (l : line) : M unit :=
  fun w => (Ok tt, mkWorld (fs w) (requests w) (stdout w ++ [l])).
Definition send (r : request) : M unit :=
  fun w => (Ok tt, mkWorld (fs w) (requests w ++ [r]) (stdout w)).

End World.

Import World.

Declare Scope py_scope.
Delimit Scope py_scope with py.
Notation "x <- c ;; k" := (bind c (fun x => k))
  (at level 100, c at next level, right associativity) : py_scope.
Notation "c ;; k" := (bind c (fun _ => k))
  (at level 100, right associativity) : py_scope.
Local Open Scope py_scope.

(** ** The [os] and [os.path] calls the program makes *)

Module Os.

(** What a path names; the empty path names nothing
    ([os.path.exists('')] is false). *)
Definition node_at (m : gmap path node) (p : path) : option node :=
  match p with
  | [] => None
  | _ => m !! p
  end.

Definition is_dir_node (n : option node) : bool :=
  match n with
  | Some (Dir _) => true
  | _ => false
  end.

(** Whether the directory that should hold [p] is one; the working
    directory always is. *)
Definition parent_node (m : gmap path node) (p : path) : option node :=
  match dirname p with
  | [] => Some (Dir fresh_dir_size)
  | d => m !! d
  end.

Definition parent_error (n : option node) : exn :=
  match n with
  | Some (File _) => NotADirectoryError
  | _ => FileNotFoundError
  end.

Definition path_exists (p : path) : M bool :=
  m <- get_fs ;; ret (bool_decide (is_Some (node_at m p))).

Definition path_isdir (p : path) : M bool :=
  m <- get_fs ;; ret (is_dir_node (node_at m p)).

Definition path_getsize (p : path) : M Z :=
  m <- get_fs ;;
  match node_at m p with
  | Some (File content) => ret (Z.of_nat (length content))
  | Some (Dir st_size) => ret st_size
  | None => raise FileNotFoundError
  end.

Definition mkdir (p : path) : M unit :=
  m <- get_fs ;;
  match p with
  | [] => raise FileNotFoundError
  | _ =>
      match m !! p with
      | Some _ => raise FileExistsError
      | None =>
          if is_dir_node (parent_node m p)
          then put_fs (<[p := Dir fresh_dir_size]> m)
          else raise (parent_error (parent_node m p))
      end
  end.

(** [os.makedirs(name, exist_ok=True)], on the reversed path so that
    the recursion on the parent is structural. *)
Fixpoint makedirs_rev (rname : list string) : M unit :=
  match rname with
  | [] => mkdir []
  | tail :: rhead =>
      let name := rev rname in
      let head := rev rhead in
      (head_exists <- path_exists head ;;
       when (negb (bool_decide (head = [])) && negb head_exists)
            (try_except (makedirs_rev rhead) is_FileExistsError (fun _ => ret tt))) ;;
      try_except (mkdir name) except_OSError
        (fun e => is_dir <- path_isdir name ;;
                  if negb is_dir then raise e else ret tt)
  end.

Definition makedirs (name : path) : M unit := makedirs_rev (rev name).

(** [open(p, 'wb')]: creates the file or empties it. *)
Definition open_wb (p : path) : M unit :=
  m <- get_fs ;;
  match p with
  | [] => raise FileNotFoundError
  | _ =>
      match m !! p with
      | Some (Dir _) => raise IsADirectoryError
      | _ =>
          if is_dir_node (parent_node m p)
          then put_fs (<[p := File []]> m)
          else raise (parent_error (parent_node m p))
      end
  end.

(** [f.write(chunk)] on the file opened at [p]. *)
Definition write (p : path) (chunk : list Byte.byte) : M unit :=
  m <- get_fs ;;
  match m !! p with
  | Some (File content) => put_fs (<[p := File (content ++ chunk)]> m)
  | _ => raise FileNotFoundError
  end.

(** [os.remove(p)]: deletes a file, refuses a directory. *)
Definition remove (p : path) : M unit :=
  m <- get_fs ;;
  match node_at m p with
  | Some (File _) => put_fs (delete p m)
  | Some (Dir _) => raise IsADirectoryError
  | None => raise FileNotFoundError
  end.

End Os.

(** ** The program *)

Module Downloader.

(** [round(size / (1024 * 1024), 2)], as a number of hundredths. *)
Definition round_hundredths (size : Z) : Z := round2_quotient size 20.

(** The same computation with its error: the division raises
    [OverflowError] for a size beyond the range of [float]. *)
Definition size_in_mb (size : Z) : result Z :=
  if quotient_fits size 20 then Ok (round_hundredths size) else Raise OverflowError.

(** [f"{year}{month:02d}-divvy-tripdata.zip"] *)
Definition candidate_filename (year month : Z) : string :=
  str year +:+ format_0d 2 month +:+ "-divvy-tripdata.zip".

(** The pairs the two nested [for] loops visit, in the order they do. *)
Definition grid : list (Z * Z) :=
  year ← range 2013 2025; month ← range 1 13; [(year, month)].

(** The key of [discovered_files.sort]: the pair (year, month), compared
    as Python compares tuples. *)
Definition key_le (a b : FileRecord) : bool :=
  (year a <? year b) || ((year a =? year b) && (month a <=? month b)).

(** [list.sort(key=...)] is a stable ascending sort.  Elements are put
    in place from the last to the first, each in front of the elements
    that do not sort before it, so equal keys keep their order. *)
Fixpoint insert_by_key (x : FileRecord) (l : list FileRecord) : list FileRecord :=
  match l with
  | [] => [x]
  | y :: l' => if key_le x y then x :: l else y :: insert_by_key x l'
  end.

Definition sort_by_key (l : list FileRecord) : list FileRecord :=
  foldr insert_by_key [] l.

(** The parsed command line. *)
Record Args : Type := mkArgs {
  arg_url : string;
  arg_output_dir : path;
  arg_year : option Z;
  arg_quarter : option Z;
  arg_list_only : bool
}.

Section WithRemote.

(** [urllib.parse.urljoin] is library code and stays a parameter; the
    remote store is the environment every session talks to. *)
Variable urljoin : url_joiner.
Variable net : network.

(** [urljoin(base_url, name)] *)
Definition call_urljoin (base_url name : string) : result string :=
  match join_error urljoin base_url name with
  | Some msg => Raise (ValueError msg)
  | None => Ok (urljoin base_url name)
  end.

(** [session.head(url, timeout=5)]; a HEAD follows no redirect. *)
Definition session_head (url : string) : M (Z * option string) :=
  send (HEAD url) ;;
  match head_of net url with
  | HeadFails => raise RequestException
  | HeadResponse status content_length => ret (status, content_length)
  end.

(** [session.get(url, stream=True)]: the session requests the URL, then
    each URL it is redirected to, before the exchange ends. *)
Definition session_get (url : string) : M response :=
  send (GET url) ;;
  for_each (fun _ target => send (GET target)) (redirects_of net url) tt ;;
  match get_of net url with
  | GetFails => raise RequestException
  | GetResponse r => ret r
  end.

(** [response.raise_for_status()]: client and server errors raise. *)
Definition raise_for_status (r : response) : M unit :=
  when ((400 <=? status_code r) && (status_code r <? 600))
       (raise (HTTPError (status_code r))).

Definition candidate_url (base_url : string) (year month : Z) : string :=
  urljoin base_url (candidate_filename year month).

(** The record appended for a candidate that answered 200 with the
    given [Content-Length] value. *)
Definition found_record (base_url : string) (year month size : Z) : FileRecord :=
  {| filename := candidate_filename year month;
     url := candidate_url base_url year month;
     size := size;
     size_mb := round_hundredths size;
     year := year;
     month := month |}.

(** [int(content_length) if content_length.isdigit() else 0] after
    [headers.get('Content-Length', '0')] *)
Definition declared_size (header : option string) : result Z :=
  let content_length := default "0"%string header in
  if isdigit content_length then Py.int content_length else Ok 0.

(** The body of the inner loop of [get_available_files].  The call of
    [urljoin] stands before the [try]; the record appended holds the URL
    it returned. *)
Definition probe (base_url : string) (discovered_files : list FileRecord)
    (candidate : Z * Z) : M (list FileRecord) :=
  let '(year, month) := candidate in
  let filename := candidate_filename year month in
  url <- lift (call_urljoin base_url filename) ;;
  try_except
    (head_response <- session_head url ;;
     if fst head_response =? 200 then
       size <- lift (declared_size (snd head_response)) ;;
       size_mb <- lift (size_in_mb size) ;;
       let appended := discovered_files ++ [found_record base_url year month size] in
       print (FoundFile filename size_mb) ;;
       ret appended
     else ret discovered_files)
    is_RequestException
    (fun _ => ret discovered_files).

(** The loops and the final sort, for any order of the candidates. *)
Definition discover (base_url : string) (candidates : list (Z * Z))
  : M (list FileRecord) :=
  print Discovering ;;
  discovered_files <- for_each (probe base_url) candidates [] ;;
  ret (sort_by_key discovered_files).

(** [get_available_files(base_url)] *)
Definition get_available_files (base_url : string) : M (list FileRecord) :=
  discover base_url grid.

(** The body of the [with open(...)] block of [download_file]. *)
Definition write_chunks (output_path : path) (r : response) : M unit :=
  for_each (fun _ chunk =>
              when (negb (bool_decide (chunk = []))) (Os.write output_path chunk))
           (chunks r) tt ;;
  when (negb (complete r)) (raise RequestException).

(** [int(response.headers.get('Content-Length', 0))] *)
Definition total_size (r : response) : result Z :=
  match content_length_header r with
  | None => Ok 0
  | Some s => Py.int s
  end.

(** [tqdm(total=total_size, ...)]: the bar draws on the terminal, which
    is left out; to draw it computes with [total_size] as a [float],
    and that raises [OverflowError] for a total beyond the range. *)
Definition progress_bar (total_size : Z) : M unit :=
  when (negb (fits_float total_size)) (raise OverflowError).

Definition download_body (url : string) (output_path : path) : M bool :=
  Os.makedirs (dirname output_path) ;;
  response <- session_get url ;;
  raise_for_status response ;;
  total_size <- lift (total_size response) ;;
  Os.open_wb output_path ;;
  progress_bar total_size ;;
  write_chunks output_path response ;;
  ret true.

Definition download_cleanup (url : string) (output_path : path) (e : exn) : M bool :=
  print (ErrorDownloading url e) ;;
  present <- Os.path_exists output_path ;;
  when present (Os.remove output_path) ;;
  ret false.

(** [download_file(url, output_path, session)].  Every session talks to
    the same remote store, so the session argument (and the fresh session
    made when it is [None]) is the section's [net]. *)
Definition download_file (url : string) (output_path : path) : M bool :=
  try_except (download_body url output_path) except_Exception
             (download_cleanup url output_path).

(** The test "already there with the right size" of the download loop. *)
Definition already_downloaded (output_path : path) (file : FileRecord) : M bool :=
  present <- Os.path_exists output_path ;;
  if present : bool then
    local_size <- Os.path_getsize output_path ;;
    ret (local_size =? size file)
  else ret false.

(** The body of the download loop of [main]. *)
Definition download_step (output_dir : path) (successful_downloads : Z)
    (file : FileRecord) : M Z :=
  let output_path := join output_dir (filename file) in
  skip <- already_downloaded output_path file ;;
  if skip : bool then
    print (Skipping (filename file)) ;;
    ret (successful_downloads + 1)
  else
    print (Downloading (filename file) (size_mb file)) ;;
    downloaded <- download_file (url file) output_path ;;
    ret (if downloaded : bool then successful_downloads + 1 else successful_downloads).

Definition download_all (output_dir : path) (files : list FileRecord)
    (successful_downloads : Z) : M Z :=
  for_each (download_step output_dir) files successful_downloads.

(** "Apply filters if specified" in [main]. *)
Definition apply_filters (args : Args) (all_files : list FileRecord)
  : M (list FileRecord) :=
  filtered_files <-
    (if truthy (arg_year args) then
       let kept := Filters.filter_files_by_year all_files (arg_year args) in
       print (FilteredByYear (arg_year args) (length kept)) ;;
       ret kept
     else ret all_files) ;;
  if truthy (arg_year args) && truthy (arg_quarter args) then
    kept <- lift (Filters.filter_files_by_quarter
                    filtered_files (arg_year args) (arg_quarter args)) ;;
    print (FilteredByQuarter (arg_year args) (arg_quarter args) (length kept)) ;;
    ret kept
  else ret filtered_files.

(** [main()], after the command line has been parsed into [args]. *)
Definition main (args : Args) : M unit :=
  Os.makedirs (arg_output_dir args) ;;
  all_files <- get_available_files (arg_url args) ;;
  if bool_decide (all_files = []) then print NoFilesFound
  else
    print (FoundTotal (length all_files)) ;;
    filtered_files <- apply_filters args all_files ;;
    if bool_decide (filtered_files = []) then print NoFilesMatch
    else
      print (TotalDownloadSize (map size_mb filtered_files)) ;;
      if arg_list_only args then
        print AvailableFiles ;;
        for_each (fun _ file => print (Listed (filename file) (size_mb file)))
                 filtered_files tt
      else
        print (DownloadingTo (length filtered_files) (arg_output_dir args)) ;;
        successful_downloads <- download_all (arg_output_dir args) filtered_files 0 ;;
        print (DownloadComplete successful_downloads (length filtered_files)) ;;
        print (FilesSavedTo (arg_output_dir args)).

End WithRemote.

End Downloader.

(** ** The properties, in the words of the specification *)

Module Spec.

Import Filters Downloader.

(** *** Filter stage *)

(** "filterByYear with a supplied year returns exactly the subset of
    records whose year equals that value", read for every integer. *)
Definition year_filter_as_stated (catalog : Catalog) (y : Z) : Prop :=
  filter_files_by_year catalog (Some y) = records_of_year y catalog.

(** "when both year and quarter are supplied and quarter is in
    {1,2,3,4}, filterByQuarter returns exactly the records ...", read
    for every integer year. *)
Definition quarter_filter_as_stated (catalog : Catalog) (y q : Z) : Prop :=
  valid_quarter q ->
  filter_files_by_quarter catalog (Some y) (Some q) = Ok (records_of_quarter y q catalog).

(** An InvalidArgument failure is Python's [ValueError]. *)
Definition invalid_argument {A} (r : result A) : Prop :=
  ∃ msg, r = Raise (ValueError msg).

(** "whenever both year and quarter are supplied and quarter is outside
    {1,2,3,4}, filterByQuarter fails with an InvalidArgument error",
    read for every pair of integers. *)
Definition bad_quarter_rejected_as_stated (catalog : Catalog) (y q : Z) : Prop :=
  ¬ valid_quarter q ->
  invalid_argument (filter_files_by_quarter catalog (Some y) (Some q)).

(** "applying filterByYear and then filterByQuarter yields the same
    result as applying filterByQuarter alone", read for every pair of
    integers. *)
Definition layering_as_stated (catalog : Catalog) (y q : Z) : Prop :=
  filter_files_by_quarter (filter_files_by_year catalog (Some y)) (Some y) (Some q)
  = filter_files_by_quarter catalog (Some y) (Some q).

(** *** Catalog builder *)

(** The decimal digit of the units of [d]. *)
Definition digit (d : Z) : ascii := ascii_of_N (Z.to_N (48 + d mod 10)).

(** "{year}{month padded to 2 digits}-divvy-tripdata.zip" for a
    four-digit year and a month of at most two digits. *)
Definition pattern_filename (y m : Z) : string :=
  String (digit (y / 1000)) (String (digit (y / 100)) (String (digit (y / 10))
  (String (digit y) (String (digit (m / 10)) (String (digit m)
  "-divvy-tripdata.zip"))))).

(** The existence probe "returned a positive (found) result". *)
Definition positive (h : head_result) : bool :=
  match h with
  | HeadFails => false
  | HeadResponse status _ => status =? 200
  end.

(** Ascending order on the pair (year, month). *)
Definition key_order (a b : FileRecord) : Prop :=
  year a < year b ∨ (year a = year b ∧ month a <= month b).

(** What one candidate contributes to the catalog: nothing, a record,
    or an error: the [ValueError] of [urljoin], the [ValueError] of a
    [Content-Length] that [isdigit] accepts and [int] refuses, or the
    [OverflowError] of a size beyond the range of [float]. *)
Definition probe_outcome (urljoin : url_joiner) (net : network)
    (base_url : string) (candidate : Z * Z) : result (option FileRecord) :=
  let '(y, m) := candidate in
  rbind (call_urljoin urljoin base_url (candidate_filename y m)) (fun url =>
  match head_of net url with
  | HeadFails => Ok None
  | HeadResponse status content_length =>
      if status =? 200
      then rbind (declared_size content_length) (fun sz =>
           rbind (size_in_mb sz) (fun _ =>
           Ok (Some (found_record urljoin base_url y m sz))))
      else Ok None
  end).

(** The records a list of candidates contributes, in probing order. *)
Definition contributions (urljoin : url_joiner) (net : network)
    (base_url : string) (candidates : list (Z * Z)) : list FileRecord :=
  candidate ← candidates;
  match probe_outcome urljoin net base_url candidate with
  | Ok (Some r) => [r]
  | _ => []
  end.

(** *** Download executor *)

(** The world after one more printed line, one more request. *)
Definition printed (l : line) (w : world) : world :=
  mkWorld (fs w) (requests w) (stdout w ++ [l]).

Definition requested (r : request) (w : world) : world :=
  mkWorld (fs w) (requests w ++ [r]) (stdout w).

(** No file or directory is found at [p]: [os.path.exists(p)] is false. *)
Definition absent (w : world) (p : path) : Prop := Os.node_at (fs w) p = None.

Definition is_directory (w : world) (p : path) : Prop :=
  Os.is_dir_node (Os.node_at (fs w) p) = true.

(** A computation keeps the relation [R] between the local files before
    and after it, whether it returns or raises. *)
Definition preserves {A : Type} (R : relation (gmap path node)) (c : M A) : Prop :=
  ∀ w, R (fs w) (fs (c w).2).

(** The paths selected by [P] hold after what they held before. *)
Definition same_at (P : path -> Prop) : relation (gmap path node) :=
  λ m m', ∀ q, P q -> m' !! q = m !! q.

(** No directory appears at [p]. *)
Definition no_new_dir (p : path) : relation (gmap path node) :=
  λ m m', Os.is_dir_node (Os.node_at m p) = false ->
          Os.is_dir_node (Os.node_at m' p) = false.

End Spec.

(** ** Sample data for the examples *)

Module Fixtures.

Import Downloader.
Local Open Scope string_scope.

(** Joining onto a base that ends with a slash appends the name. *)
Definition urljoin_dir : url_joiner :=
  {| joined := fun base_url name => base_url +:+ name;
     join_error := fun _ _ => None |}.

Definition base : string := "https://divvy-tripdata.s3.amazonaws.com/".

Definition sample_body : list (list Byte.byte) :=
  [[Byte.x50; Byte.x4b]; []; [Byte.x03; Byte.x04]].

(** A store where only 2020-01 and 2020-03 exist; 2020-04 times out on
    the probe; the body of 2020-03 breaks off in mid-transfer. *)
Definition store : network :=
  {| head_of := fun u =>
       if decide (u = base +:+ "202001-divvy-tripdata.zip")
       then HeadResponse 200 (Some "4")
       else if decide (u = base +:+ "202003-divvy-tripdata.zip")
       then HeadResponse 200 None
       else if decide (u = base +:+ "202004-divvy-tripdata.zip")
       then HeadFails
       else HeadResponse 404 None;
     get_of := fun u =>
       if decide (u = base +:+ "202001-divvy-tripdata.zip")
       then GetResponse (mkResponse 200 (Some "4") sample_body true)
       else if decide (u = base +:+ "202003-divvy-tripdata.zip")
       then GetResponse (mkResponse 200 None sample_body false)
       else GetResponse (mkResponse 404 None [] true);
     redirects_of := fun _ => [] |}.

Definition jan2020 : FileRecord := found_record urljoin_dir base 2020 1 4.
Definition mar2020 : FileRecord := found_record urljoin_dir base 2020 3 0.
Definition apr2021 : FileRecord := found_record urljoin_dir base 2021 4 7.
Definition jul2021 : FileRecord := found_record urljoin_dir base 2021 7 9.

Definition sample_catalog : Catalog := [jan2020; mar2020; apr2021; jul2021].

Definition empty_world : world := mkWorld ∅ [] [].

(** [data/] holds a complete copy of the January archive. *)
Definition mirrored_world : world :=
  mkWorld (<[ ["data"; "202001-divvy-tripdata.zip"]
                := File [Byte.x50; Byte.x4b; Byte.x03; Byte.x04] ]>
           (<[ ["data"] := Dir fresh_dir_size ]> ∅)) [] [].

(** [data/202001-divvy-tripdata.zip] is a directory. *)
Definition unpacked_world : world :=
  mkWorld (<[ ["data"; "202001-divvy-tripdata.zip"] := Dir fresh_dir_size ]>
           (<[ ["data"] := Dir fresh_dir_size ]> ∅)) [] [].

End Fixtures.

(** ** Further notions, for the properties of the rest of the program *)

Module Notions.

Import Filters Downloader Spec Fixtures.
Local Open Scope string_scope.

(** Strictly ascending order on the pair (year, month). *)
Definition key_lt (a b : FileRecord) : Prop :=
  year a < year b ∨ (year a = year b ∧ month a < month b).

(** The sort key of a record. *)
Definition key_of (r : FileRecord) : Z * Z := (year r, month r).

(** The months a calendar has. *)
Definition calendar_month (r : FileRecord) : Prop := 1 <= month r <= 12.

(** The requests a computation adds to the log are picked, in their
    order, from [l]; nothing is taken off the log. *)
Definition adds {A : Type} (l : list request) (c : M A) : Prop :=
  ∀ w, ∃ rs, rs `sublist_of` l ∧ requests (c w).2 = (requests w ++ rs)%list.

(** One HEAD per candidate, one GET per record, one output path per record. *)
Definition probe_requests (urljoin : url_joiner) (base_url : string)
    (candidates : list (Z * Z)) : list request :=
  map (λ c, HEAD (candidate_url urljoin base_url c.1 c.2)) candidates.

Definition download_requests (files : list FileRecord) : list request :=
  map (λ file, GET (url file)) files.

(** The requests one transfer of [u] makes: the GET of [u], then the
    GETs of the URLs the store redirects it to. *)
Definition transfer_requests (net : network) (u : string) : list request :=
  GET u :: map GET (redirects_of net u).

(** The store redirects no GET. *)
Definition direct (net : network) : Prop := ∀ u, redirects_of net u = [].

Definition output_paths (output_dir : path) (files : list FileRecord) : list path :=
  map (λ file, join output_dir (filename file)) files.

(** The paths [download_file] cannot change: everything that is not the
    output path and lies deeper than the directory holding it. *)
Definition beside (p : path) (q : path) : Prop :=
  (length (dirname p) < length q)%nat ∧ q ≠ p.

(** The output directory is in place, as it is once [main] has made it:
    it is a directory and so is the directory that holds it. *)
Definition output_dir_ready (m : gmap path node) (output_dir : path) : Prop :=
  output_dir ≠ []
  ∧ Os.is_dir_node (m !! output_dir) = true
  ∧ (dirname output_dir = [] ∨ is_Some (m !! dirname output_dir)).

(** Every request a computation adds to the log satisfies [P]. *)
Definition sends {A : Type} (P : request -> Prop) (c : M A) : Prop :=
  ∀ w, ∃ rs, Forall P rs ∧ requests (c w).2 = (requests w ++ rs)%list.

(** A HEAD or a GET for one of the candidate names of the grid, resolved
    against the base URL. *)
Definition candidate_request (urljoin : url_joiner) (base_url : string)
    (req : request) : Prop :=
  ∃ c, c ∈ grid
       ∧ (req = HEAD (candidate_url urljoin base_url c.1 c.2)
          ∨ req = GET (candidate_url urljoin base_url c.1 c.2)).

(** A store like [store] whose answer for 2020-03 declares a length of
    401 digits. *)
Definition vast_length : string := String "1" (Py.zeros 400).

Definition vast_store : network :=
  {| head_of := fun u =>
       if decide (u = base +:+ "202003-divvy-tripdata.zip")
       then HeadResponse 200 (Some vast_length)
       else head_of store u;
     get_of := get_of store;
     redirects_of := redirects_of store |}.

(** The errors that leave the builder are those of [urljoin], [int] and
    the division. *)
Definition builder_error (e : exn) : Prop :=
  (∃ msg, e = ValueError msg) ∨ e = OverflowError.

(** What [main] may contact for a base URL: the candidates, and what the
    store redirects the GET of a candidate to. *)
Definition contact (urljoin : url_joiner) (net : network) (base_url : string)
    (req : request) : Prop :=
  candidate_request urljoin base_url req
  ∨ ∃ c target, c ∈ grid
                ∧ target ∈ redirects_of net (candidate_url urljoin base_url c.1 c.2)
                ∧ req = GET target.

(** A store like [store] whose answer for 2020-03 declares its length
    with the superscript digit U+00B2. *)
Definition superscript_two : string := String (ascii_of_N 178) EmptyString.

Definition odd_store : network :=
  {| head_of := fun u =>
       if decide (u = base +:+ "202003-divvy-tripdata.zip")
       then HeadResponse 200 (Some superscript_two)
       else head_of store u;
     get_of := get_of store;
     redirects_of := redirects_of store |}.

(** A store like [store] that sends the GET of 2020-01 on to a mirror,
    which delivers the archive. *)
Definition mirror_url : string := "https://mirror.example.org/202001.zip".

Definition moved_store : network :=
  {| head_of := head_of store;
     get_of := get_of store;
     redirects_of := fun u =>
       if decide (u = base +:+ "202001-divvy-tripdata.zip") then [mirror_url] else [] |}.

(** [urljoin] as it treats a base with an unclosed bracket: it raises. *)
Definition broken_base : string := "http://[".

Definition urljoin_strict : url_joiner :=
  {| joined := fun base_url name => base_url +:+ name;
     join_error := fun base_url _ =>
       if decide (base_url = broken_base) then Some "Invalid IPv6 URL" else None |}.

(** A store that answers no probe. *)
Definition silent_store : network :=
  {| head_of := fun _ => HeadFails;
     get_of := fun _ => GetFails;
     redirects_of := fun _ => [] |}.

(** [data/] exists and is empty. *)
Definition fresh_world : world :=
  mkWorld (<[ ["data"] := Dir fresh_dir_size ]> ∅) [] [].

(** [data/] holds a one-byte file under the January name and a file of
    the user's. *)
Definition stale_world : world :=
  mkWorld (<[ ["data"; "202001-divvy-tripdata.zip"] := File [Byte.x00] ]>
           (<[ ["data"; "notes.txt"] := File [Byte.x68; Byte.x69] ]>
            (<[ ["data"] := Dir fresh_dir_size ]> ∅))) [] [].

End Notions.

(** * Properties of the filter stage *)

Module FilterProps.

Import Filters Spec Fixtures.

Lemma truthy_Some (z : Z) : truthy (Some z) = true <-> z ≠ 0.
Proof.
  unfold truthy. rewrite negb_true_iff. split.
  - intros H ->. discriminate.
  - intros H. now apply Z.eqb_neq.
Qed.

Lemma truthy_nonzero (z : Z) : z ≠ 0 -> truthy (Some z) = true.
Proof. apply truthy_Some. Qed.

(** A Boolean filter and a filter on a decidable predicate agree when
    the test and the predicate do. *)
Lemma bool_filter_spec {A} (b : A -> bool) (P : A -> Prop) `{∀ x, Decision (P x)}
    (l : list A) :
  (∀ x, b x = true <-> P x) -> List.filter b l = filter P l.
Proof.
  intros Hb. induction l as [|x l IH]; [reflexivity|].
  cbn [List.filter]. rewrite filter_cons, IH.
  destruct (b x) eqn:Hx; destruct (decide (P x)) as [HP|HP]; try reflexivity.
  - exfalso. apply HP, Hb, Hx.
  - apply Hb in HP. congruence.
Qed.

(** A comprehension whose condition never raises is a plain filter. *)
Lemma comprehension_total (cond : FileRecord -> result bool) (b : FileRecord -> bool)
    (files : list FileRecord) :
  (∀ file, cond file = Ok (b file)) ->
  comprehension cond files = Ok (List.filter b files).
Proof.
  intros Hcond. induction files as [|file rest IH]; [reflexivity|].
  cbn [comprehension List.filter]. rewrite Hcond, IH. cbn.
  now destruct (b file).
Qed.

Lemma int_in_spec (x : Z) (l : list Z) : int_in x l = true <-> x ∈ l.
Proof.
  unfold int_in. rewrite existsb_exists. split.
  - intros (z & Hz & Heq). apply Z.eqb_eq in Heq. subst.
    now apply list_elem_of_In.
  - intros Hx. exists x. split; [now apply list_elem_of_In | apply Z.eqb_refl].
Qed.

Lemma valid_quarter_cases (q : Z) :
  valid_quarter q <-> q = 1 ∨ q = 2 ∨ q = 3 ∨ q = 4.
Proof.
  unfold valid_quarter. rewrite !elem_of_cons, elem_of_nil. tauto.
Qed.

Lemma arg_in_valid (q : Z) : arg_in (Some q) [1; 2; 3; 4] = true <-> valid_quarter q.
Proof.
  rewrite valid_quarter_cases. unfold arg_in. cbn [existsb eq_arg].
  rewrite !orb_true_iff, !Z.eqb_eq. intuition congruence.
Qed.

Lemma quarter_months_valid (q : Z) :
  valid_quarter q -> quarter_months_at (Some q) = Ok (quarter_group q).
Proof.
  rewrite valid_quarter_cases. intros [-> | [-> | [-> | ->]]]; reflexivity.
Qed.

(** C3 (as amended): for every catalog, every year other than 0 and every
    quarter in {1,2,3,4}, [filter_files_by_quarter] returns exactly the
    records whose year is the given one and whose month lies in the
    quarter's group, in their original order. *)
Theorem filter_by_quarter_exact (catalog : Catalog) (y q : Z) :
  y ≠ 0 -> valid_quarter q ->
  filter_files_by_quarter catalog (Some y) (Some q)
  = Ok (filter (λ r, year r = y ∧ month r ∈ quarter_group q) catalog).
Proof.
  intros Hy Hq. unfold filter_files_by_quarter.
  assert (Hq0 : q ≠ 0).
  { apply valid_quarter_cases in Hq. lia. }
  rewrite (truthy_nonzero y Hy), (truthy_nonzero q Hq0).
  apply arg_in_valid in Hq as Hin. rewrite Hin. cbn [negb orb].
  rewrite (comprehension_total _
             (fun file => (year file =? y) && int_in (month file) (quarter_group q))).
  - f_equal. apply bool_filter_spec.
    intros r. rewrite andb_true_iff, Z.eqb_eq, int_in_spec. reflexivity.
  - intros file. unfold quarter_condition. cbn [eq_arg].
    rewrite (quarter_months_valid q Hq).
    destruct (year file =? y); reflexivity.
Qed.

Lemma filter_by_quarter_exact_witness :
  filter_files_by_quarter sample_catalog (Some 2021) (Some 2) = Ok [apr2021].
Proof.
  refine (eq_trans (filter_by_quarter_exact sample_catalog 2021 2 _ _) _).
  - lia.
  - apply valid_quarter_cases. lia.
  - vm_compute. reflexivity.
Defined.

(** C3, the claim as stated, fails for the year 0: the whole catalog
    comes back, not the (empty) set of records of year 0. *)
Lemma filter_by_quarter_year_zero :
  ¬ quarter_filter_as_stated sample_catalog 0 1.
Proof.
  unfold quarter_filter_as_stated. intros H.
  assert (Hq : valid_quarter 1) by (apply valid_quarter_cases; lia).
  specialize (H Hq). vm_compute in H. discriminate H.
Qed.

(** C4 (as amended): for every catalog, every year other than 0 and every
    quarter other than 0 that is outside {1,2,3,4}, the filter raises
    [ValueError] and returns nothing. *)
Theorem filter_by_quarter_rejects (catalog : Catalog) (y q : Z) :
  y ≠ 0 -> q ≠ 0 -> ¬ valid_quarter q ->
  filter_files_by_quarter catalog (Some y) (Some q)
  = Raise (ValueError "Quarter must be 1, 2, 3, or 4").
Proof.
  intros Hy Hq0 Hq. unfold filter_files_by_quarter.
  rewrite (truthy_nonzero y Hy), (truthy_nonzero q Hq0). cbn [negb orb].
  destruct (arg_in (Some q) [1; 2; 3; 4]) eqn:Hin; [|reflexivity].
  apply arg_in_valid in Hin. contradiction.
Qed.

Lemma filter_by_quarter_rejects_witness :
  filter_files_by_quarter sample_catalog (Some 2021) (Some 5)
  = Raise (ValueError "Quarter must be 1, 2, 3, or 4").
Proof.
  apply (filter_by_quarter_rejects sample_catalog 2021 5).
  - lia.
  - lia.
  - rewrite valid_quarter_cases. lia.
Defined.

(** C4, the claim as stated, fails for the quarter 0, which is outside
    {1,2,3,4} and yet raises no error. *)
Lemma filter_by_quarter_zero_not_rejected :
  ¬ bad_quarter_rejected_as_stated sample_catalog 2021 0.
Proof.
  unfold bad_quarter_rejected_as_stated, invalid_argument. intros H.
  destruct H as [msg H].
  - rewrite valid_quarter_cases. lia.
  - vm_compute in H. discriminate H.
Qed.

(** C5 (as amended): for every catalog, [filter_files_by_year] with a year
    other than 0 returns exactly the records of that year, in their
    original order, and with no year it returns the catalog as it is. *)
Theorem filter_by_year_exact (catalog : Catalog) (y : Z) :
  y ≠ 0 ->
  filter_files_by_year catalog (Some y) = filter (λ r, year r = y) catalog
  ∧ filter_files_by_year catalog None = catalog.
Proof.
  intros Hy. split; [|reflexivity].
  unfold filter_files_by_year. rewrite (truthy_nonzero y Hy). cbn [negb].
  apply bool_filter_spec. intros r. cbn [eq_arg]. apply Z.eqb_eq.
Qed.

Lemma filter_by_year_exact_witness :
  filter_files_by_year sample_catalog (Some 2021) = [apr2021; jul2021]
  ∧ filter_files_by_year sample_catalog None = sample_catalog.
Proof.
  destruct (filter_by_year_exact sample_catalog 2021) as [H1 H2]; [lia|].
  split; [|exact H2].
  refine (eq_trans H1 _). vm_compute. reflexivity.
Defined.

(** C5, the claim as stated, fails for the year 0. *)
Lemma filter_by_year_zero :
  ¬ year_filter_as_stated sample_catalog 0.
Proof.
  unfold year_filter_as_stated. intros H. vm_compute in H. discriminate H.
Qed.

(** Records of another year fail the condition of the comprehension, so
    dropping them first changes nothing, whatever the quarter. *)
Lemma comprehension_after_year (y : Z) (quarter_arg : option Z) (files : list FileRecord) :
  comprehension (quarter_condition (Some y) quarter_arg)
                (List.filter (fun file => eq_arg (year file) (Some y)) files)
  = comprehension (quarter_condition (Some y) quarter_arg) files.
Proof.
  induction files as [|file rest IH]; [reflexivity|].
  cbn [List.filter]. destruct (eq_arg (year file) (Some y)) eqn:Hyear.
  - cbn [comprehension]. now rewrite IH.
  - cbn [comprehension]. rewrite IH. unfold quarter_condition at 2. rewrite Hyear.
    cbn [rbind]. now destruct (comprehension _ rest).
Qed.

Lemma filter_by_quarter_absent (catalog : Catalog) (year_arg quarter_arg : option Z) :
  year_arg = None ∨ quarter_arg = None ->
  filter_files_by_quarter catalog year_arg quarter_arg = Ok catalog.
Proof.
  unfold filter_files_by_quarter. intros [-> | ->]; cbn [truthy negb orb].
  - reflexivity.
  - now rewrite orb_true_r.
Qed.

Lemma layering_nonzero (catalog : Catalog) (y q : Z) :
  q ≠ 0 ->
  filter_files_by_quarter (filter_files_by_year catalog (Some y)) (Some y) (Some q)
  = filter_files_by_quarter catalog (Some y) (Some q).
Proof.
  intros Hq. unfold filter_files_by_year.
  destruct (truthy (Some y)) eqn:Hy; [|reflexivity]. cbn [negb].
  unfold filter_files_by_quarter. rewrite Hy, (truthy_nonzero q Hq). cbn [negb orb].
  destruct (arg_in (Some q) [1; 2; 3; 4]); [|reflexivity]. cbn [negb].
  apply comprehension_after_year.
Qed.

(** C9 (as amended): for every catalog, every year and every quarter other
    than 0, filtering by year and then by quarter gives what filtering
    by quarter alone gives (the same records or the same error); and
    with the year or the quarter missing the quarter filter returns its
    input as it is. *)
Theorem filter_layering (catalog : Catalog) (y q : Z) :
  q ≠ 0 ->
  filter_files_by_quarter (filter_files_by_year catalog (Some y)) (Some y) (Some q)
  = filter_files_by_quarter catalog (Some y) (Some q)
  ∧ (∀ year_arg quarter_arg,
       year_arg = None ∨ quarter_arg = None ->
       filter_files_by_quarter catalog year_arg quarter_arg = Ok catalog).
Proof.
  intros Hq. split; [now apply layering_nonzero | apply filter_by_quarter_absent].
Qed.

Lemma filter_layering_witness :
  filter_files_by_quarter (filter_files_by_year sample_catalog (Some 2021))
                          (Some 2021) (Some 3)
  = filter_files_by_quarter sample_catalog (Some 2021) (Some 3)
  ∧ filter_files_by_quarter sample_catalog None (Some 3) = Ok sample_catalog.
Proof.
  destruct (filter_layering sample_catalog 2021 3) as [H1 H2]; [lia|].
  split; [exact H1|].
  apply H2. left. reflexivity.
Defined.

(** C9, the claim as stated, fails for the quarter 0: alone, the quarter
    filter returns the whole catalog; after the year filter, only the
    records of that year. *)
Lemma filter_layering_quarter_zero :
  ¬ layering_as_stated sample_catalog 2021 0.
Proof.
  unfold layering_as_stated. intros H. vm_compute in H. discriminate H.
Qed.

(** C10: the filters test their arguments for truth, so 0 counts as a
    missing argument: [filter_files_by_year(catalog, 0)] returns the
    catalog as it is, and so does [filter_files_by_quarter(catalog,
    year, 0)] for every true year, without raising. *)
Theorem zero_is_absent (catalog : Catalog) (year_arg : option Z) :
  truthy year_arg = true ->
  filter_files_by_year catalog (Some 0) = catalog
  ∧ filter_files_by_quarter catalog year_arg (Some 0) = Ok catalog.
Proof.
  intros Hy. split; [reflexivity|].
  unfold filter_files_by_quarter. rewrite Hy. reflexivity.
Qed.

Lemma zero_is_absent_witness :
  filter_files_by_year sample_catalog (Some 0) = sample_catalog
  ∧ filter_files_by_quarter sample_catalog (Some 2021) (Some 0) = Ok sample_catalog.
Proof.
  apply (zero_is_absent sample_catalog (Some 2021)). reflexivity.
Defined.

(** In [main] the quarter filter runs on the output of the year filter,
    and only when both arguments are true: what it selects is what the
    quarter filter selects from the whole catalog. *)
Lemma apply_filters_layered (args : Downloader.Args) (all_files : Catalog) (w : world) :
  (Downloader.apply_filters args all_files w).1
  = if truthy (Downloader.arg_year args)
    then if truthy (Downloader.arg_quarter args)
         then filter_files_by_quarter all_files (Downloader.arg_year args)
                                      (Downloader.arg_quarter args)
         else Ok (filter_files_by_year all_files (Downloader.arg_year args))
    else Ok all_files.
Proof.
  unfold Downloader.apply_filters.
  destruct args as [u d [y|] [q|] l]; cbn [Downloader.arg_year Downloader.arg_quarter];
    try reflexivity.
  - destruct (truthy (Some y)) eqn:Hy; [|reflexivity].
    destruct (truthy (Some q)) eqn:Hq; [|reflexivity].
    apply truthy_Some in Hy, Hq.
    rewrite <- (layering_nonzero all_files y q Hq).
    unfold bind, print, ret, lift. cbn.
    now destruct (filter_files_by_quarter _ _ _).
  - now destruct (truthy (Some y)).
Qed.

End FilterProps.

(** * Properties of the monad and of the loops *)

Module MonadProps.

Lemma for_each_app {A B} (body : B -> A -> M B) (xs ys : list A) (acc : B) (w : world) :
  for_each body (xs ++ ys) acc w
  = match for_each body xs acc w with
    | (Ok acc', w') => for_each body ys acc' w'
    | (Raise e, w') => (Raise e, w')
    end.
Proof.
  revert acc w. induction xs as [|x xs IH]; intros acc w; [reflexivity|].
  cbn [for_each app]. unfold bind.
  destruct (body acc x w) as [[acc'|e] w']; [apply IH | reflexivity].
Qed.

Lemma for_each_cons {A B} (body : B -> A -> M B) (x : A) (xs : list A) (acc : B)
    (w : world) :
  for_each body (x :: xs) acc w
  = match body acc x w with
    | (Ok acc', w') => for_each body xs acc' w'
    | (Raise e, w') => (Raise e, w')
    end.
Proof. reflexivity. Qed.

End MonadProps.

(** * Properties of the catalog builder *)

Module CatalogProps.

Import Downloader Spec Fixtures MonadProps.

Section WithRemote.

Variable urljoin : url_joiner.
Variable net : network.
Variable base_url : string.

Lemma int_error_class (s : string) (e : exn) :
  Py.int s = Raise e -> ∃ msg, e = ValueError msg.
Proof.
  unfold Py.int. destruct (split_sign _) as [negative literal].
  destruct (scan_digits _ _ _ _) as [|value digits rest].
  - intros [= <-]. unfold int_error. eauto.
  - destruct (_ <? _)%nat.
    + intros [= <-]. unfold int_limit_error. eauto.
    + destruct (all_chars _ _); [discriminate|].
      intros [= <-]. unfold int_error. eauto.
Qed.

Lemma declared_size_error (header : option string) (e : exn) :
  declared_size header = Raise e -> is_RequestException e = false.
Proof.
  unfold declared_size. destruct (isdigit _); [|discriminate].
  intros [msg ->]%int_error_class. reflexivity.
Qed.

Lemma size_in_mb_ok (sz mb : Z) : size_in_mb sz = Ok mb -> mb = round_hundredths sz.
Proof. unfold size_in_mb. destruct (quotient_fits _ _); congruence. Qed.

Lemma size_in_mb_error (sz : Z) (e : exn) : size_in_mb sz = Raise e -> e = OverflowError.
Proof. unfold size_in_mb. destruct (quotient_fits _ _); congruence. Qed.

(** One turn of the inner loop, read off the candidate's outcome: when
    [urljoin] raises nothing is sent, otherwise one HEAD is. *)
Lemma probe_run (discovered : list FileRecord) (y m : Z) (w : world) :
  probe urljoin net base_url discovered (y, m) w
  = match join_error urljoin base_url (candidate_filename y m) with
    | Some msg => (Raise (ValueError msg), w)
    | None =>
        let w1 := requested (HEAD (candidate_url urljoin base_url y m)) w in
        match probe_outcome urljoin net base_url (y, m) with
        | Ok None => (Ok discovered, w1)
        | Ok (Some r) =>
            (Ok (discovered ++ [r]), printed (FoundFile (filename r) (size_mb r)) w1)
        | Raise e => (Raise e, w1)
        end
    end.
Proof.
  unfold probe, probe_outcome, call_urljoin, bind at 1, lift.
  destruct (join_error urljoin base_url _) as [msg|]; [reflexivity|]. cbn [rbind].
  unfold try_except, session_head, candidate_url, bind, send, requested. cbn.
  destruct (head_of net _) as [|status header]; cbn; [reflexivity|].
  destruct (status =? 200); cbn; [|reflexivity].
  unfold lift. destruct (declared_size header) as [sz|e] eqn:Hsz; cbn.
  - destruct (size_in_mb sz) as [mb|e] eqn:Hmb; cbn.
    + now rewrite (size_in_mb_ok _ _ Hmb).
    + now rewrite (size_in_mb_error _ _ Hmb).
  - now rewrite (declared_size_error _ _ Hsz).
Qed.

Lemma outcome_join_error (y m : Z) (msg : string) :
  join_error urljoin base_url (candidate_filename y m) = Some msg ->
  probe_outcome urljoin net base_url (y, m) = Raise (ValueError msg).
Proof. unfold probe_outcome, call_urljoin. now intros ->. Qed.

Lemma outcome_ok_joined (c : Z * Z) (o : option FileRecord) :
  probe_outcome urljoin net base_url c = Ok o ->
  join_error urljoin base_url (candidate_filename c.1 c.2) = None.
Proof.
  destruct c as [y m]. unfold probe_outcome, call_urljoin. cbn [fst snd].
  now destruct (join_error urljoin base_url _).
Qed.

Lemma contributions_cons (c : Z * Z) (cs : list (Z * Z)) :
  contributions urljoin net base_url (c :: cs)
  = match probe_outcome urljoin net base_url c with
    | Ok (Some r) => [r]
    | _ => []
    end ++ contributions urljoin net base_url cs.
Proof. reflexivity. Qed.

(** The loop over the candidates either collects their contributions
    or stops at the first candidate whose outcome is an error. *)
Lemma probes_run (cs : list (Z * Z)) :
  ∀ (discovered : list FileRecord) (w : world),
    (∃ w', for_each (probe urljoin net base_url) cs discovered w
           = (Ok (discovered ++ contributions urljoin net base_url cs), w')
         ∧ Forall (λ c, ∃ o, probe_outcome urljoin net base_url c = Ok o) cs
         ∧ fs w' = fs w
         ∧ requests w'
           = requests w
             ++ map (λ c, HEAD (candidate_url urljoin base_url c.1 c.2)) cs)
    ∨ (∃ c e w', c ∈ cs
         ∧ probe_outcome urljoin net base_url c = Raise e
         ∧ for_each (probe urljoin net base_url) cs discovered w = (Raise e, w')).
Proof.
  induction cs as [|[y m] cs IH]; intros discovered w.
  - left. exists w. cbn. rewrite !app_nil_r. auto using Forall_nil_2.
  - rewrite for_each_cons, probe_run, contributions_cons.
    destruct (join_error urljoin base_url (candidate_filename y m)) as [msg|] eqn:Hjoin.
    { right. exists (y, m), (ValueError msg), w.
      split; [now left|]. split; [now apply outcome_join_error | reflexivity]. }
    cbn zeta.
    destruct (probe_outcome urljoin net base_url (y, m)) as [[r|]|e] eqn:Hout.
    + destruct (IH (discovered ++ [r])
                  (printed (FoundFile (filename r) (size_mb r))
                     (requested (HEAD (candidate_url urljoin base_url y m)) w)))
        as [(w' & Hrun & Hall & Hfs & Hreq) | (c & e & w' & Hc & Hce & Hrun)].
      * left. exists w'. rewrite Hrun, <- app_assoc. split; [reflexivity|].
        split; [constructor; eauto|].
        split; [exact Hfs|]. rewrite Hreq. cbn. now rewrite <- app_assoc.
      * right. exists c, e, w'. split; [now right | auto].
    + destruct (IH discovered
                  (requested (HEAD (candidate_url urljoin base_url y m)) w))
        as [(w' & Hrun & Hall & Hfs & Hreq) | (c & e & w' & Hc & Hce & Hrun)].
      * left. exists w'. rewrite Hrun. split; [reflexivity|].
        split; [constructor; eauto|].
        split; [exact Hfs|]. rewrite Hreq. cbn. now rewrite <- app_assoc.
      * right. exists c, e, w'. split; [now right | auto].
    + right. exists (y, m), e, (requested (HEAD (candidate_url urljoin base_url y m)) w).
      split; [now left | auto].
Qed.

Lemma discover_run (cs : list (Z * Z)) (w : world) :
  (∃ w', discover urljoin net base_url cs w
         = (Ok (sort_by_key (contributions urljoin net base_url cs)), w')
       ∧ Forall (λ c, ∃ o, probe_outcome urljoin net base_url c = Ok o) cs
       ∧ fs w' = fs w
       ∧ requests w'
         = requests w
           ++ map (λ c, HEAD (candidate_url urljoin base_url c.1 c.2)) cs)
  ∨ (∃ c e w', c ∈ cs
       ∧ probe_outcome urljoin net base_url c = Raise e
       ∧ discover urljoin net base_url cs w = (Raise e, w')).
Proof.
  unfold discover, bind at 1, print.
  destruct (probes_run cs [] (mkWorld (fs w) (requests w) (stdout w ++ [Discovering])))
    as [(w' & Hrun & Hall & Hfs & Hreq) | (c & e & w' & Hc & Hce & Hrun)].
  - left. exists w'. unfold bind, ret. rewrite Hrun. auto.
  - right. exists c, e, w'. unfold bind. rewrite Hrun. auto.
Qed.

Lemma discover_ok (cs : list (Z * Z)) (w w' : world) (catalog : Catalog) :
  discover urljoin net base_url cs w = (Ok catalog, w') ->
  catalog = sort_by_key (contributions urljoin net base_url cs)
  ∧ Forall (λ c, ∃ o, probe_outcome urljoin net base_url c = Ok o) cs.
Proof.
  intros Hrun.
  destruct (discover_run cs w) as [(w1 & H1 & Hall & _) | (c & e & w1 & _ & _ & H1)];
    rewrite H1 in Hrun; [|congruence].
  split; [congruence | exact Hall].
Qed.

Lemma outcome_record (y m : Z) (r : FileRecord) :
  probe_outcome urljoin net base_url (y, m) = Ok (Some r) ->
  year r = y ∧ month r = m
  ∧ filename r = candidate_filename y m
  ∧ url r = candidate_url urljoin base_url y m
  ∧ positive (head_of net (candidate_url urljoin base_url y m)) = true.
Proof.
  unfold probe_outcome, call_urljoin, positive, candidate_url.
  destruct (join_error urljoin base_url _); [discriminate|]. cbn [rbind].
  destruct (head_of net _) as [|status header]; [discriminate|].
  destruct (status =? 200); [|discriminate].
  destruct (declared_size header) as [sz|e]; cbn [rbind]; [|discriminate].
  destruct (size_in_mb sz); cbn [rbind]; [|discriminate].
  intros [= <-]. cbn. auto.
Qed.

Lemma outcome_negative (c : Z * Z) :
  join_error urljoin base_url (candidate_filename c.1 c.2) = None ->
  positive (head_of net (candidate_url urljoin base_url c.1 c.2)) = false ->
  probe_outcome urljoin net base_url c = Ok None.
Proof.
  destruct c as [y m]. unfold probe_outcome, call_urljoin, positive, candidate_url.
  cbn [fst snd]. intros ->. cbn [rbind].
  destruct (head_of net _) as [|status header]; [reflexivity|].
  now intros ->.
Qed.

Lemma outcome_positive (c : Z * Z) :
  positive (head_of net (candidate_url urljoin base_url c.1 c.2)) = true ->
  (∃ r, probe_outcome urljoin net base_url c = Ok (Some r))
  ∨ (∃ e, probe_outcome urljoin net base_url c = Raise e).
Proof.
  destruct c as [y m]. unfold probe_outcome, call_urljoin, positive, candidate_url.
  cbn [fst snd].
  destruct (join_error urljoin base_url _); cbn [rbind]; [eauto|].
  destruct (head_of net _) as [|status header]; [discriminate|].
  intros ->. destruct (declared_size header) as [sz|e]; cbn [rbind]; [|eauto].
  destruct (size_in_mb sz); cbn [rbind]; eauto.
Qed.

Lemma elem_of_contributions (r : FileRecord) (cs : list (Z * Z)) :
  r ∈ contributions urljoin net base_url cs
  <-> ∃ c, c ∈ cs ∧ probe_outcome urljoin net base_url c = Ok (Some r).
Proof.
  unfold contributions. rewrite list_elem_of_bind. split.
  - intros (c & Hr & Hc). exists c. split; [exact Hc|].
    destruct (probe_outcome urljoin net base_url c) as [[r'|]|e].
    + apply list_elem_of_singleton in Hr. now subst.
    + now apply elem_of_nil in Hr.
    + now apply elem_of_nil in Hr.
  - intros (c & Hc & Hout). exists c. rewrite Hout.
    split; [apply list_elem_of_singleton; reflexivity | exact Hc].
Qed.

End WithRemote.

(** *** The sort *)

Lemma key_le_order (a b : FileRecord) : key_le a b = true <-> key_order a b.
Proof.
  unfold key_le, key_order.
  rewrite orb_true_iff, andb_true_iff, Z.ltb_lt, Z.eqb_eq, Z.leb_le. reflexivity.
Qed.

Lemma key_le_total (a b : FileRecord) : key_le a b = false -> key_order b a.
Proof.
  unfold key_le, key_order.
  rewrite orb_false_iff, andb_false_iff, Z.ltb_ge, Z.eqb_neq, Z.leb_gt. lia.
Qed.

Lemma insert_by_key_perm (x : FileRecord) (l : list FileRecord) :
  insert_by_key x l ≡ₚ x :: l.
Proof.
  induction l as [|y l IH]; cbn; [reflexivity|].
  destruct (key_le x y); [reflexivity|].
  rewrite IH. apply Permutation_swap.
Qed.

Lemma sort_by_key_perm (l : list FileRecord) : sort_by_key l ≡ₚ l.
Proof.
  induction l as [|x l IH]; cbn; [reflexivity|].
  now rewrite insert_by_key_perm, IH.
Qed.

Lemma insert_by_key_HdRel (a x : FileRecord) (l : list FileRecord) :
  key_order a x -> HdRel key_order a l -> HdRel key_order a (insert_by_key x l).
Proof.
  intros Hax Hal. destruct l as [|y l]; cbn.
  - now constructor.
  - destruct (key_le x y); constructor; [exact Hax|].
    now inversion Hal.
Qed.

Lemma insert_by_key_sorted (x : FileRecord) (l : list FileRecord) :
  Sorted key_order l -> Sorted key_order (insert_by_key x l).
Proof.
  induction 1 as [|y l Hl IH Hy]; cbn.
  - repeat constructor.
  - destruct (key_le x y) eqn:Hxy.
    + constructor; [now constructor|]. constructor. now apply key_le_order.
    + constructor; [exact IH|].
      apply insert_by_key_HdRel; [now apply key_le_total | exact Hy].
Qed.

Lemma sort_by_key_sorted (l : list FileRecord) : Sorted key_order (sort_by_key l).
Proof.
  induction l as [|x l IH]; cbn; [constructor|].
  now apply insert_by_key_sorted.
Qed.

(** *** The catalog *)

Lemma elem_of_sort_by_key (r : FileRecord) (l : list FileRecord) :
  r ∈ sort_by_key l <-> r ∈ l.
Proof. now rewrite sort_by_key_perm. Qed.

(** A record of a returned catalog comes from a candidate whose probe was
    positive. *)
Lemma catalog_members (urljoin : url_joiner) (net : network)
    (base_url : string) (candidates : list (Z * Z)) (w w' : world) (catalog : Catalog)
    (r : FileRecord) :
  discover urljoin net base_url candidates w = (Ok catalog, w') ->
  r ∈ catalog ->
  (year r, month r) ∈ candidates
  ∧ url r = candidate_url urljoin base_url (year r) (month r)
  ∧ positive (head_of net (url r)) = true.
Proof.
  intros [-> _]%discover_ok Hr.
  apply elem_of_sort_by_key, elem_of_contributions in Hr.
  destruct Hr as ([y m] & Hc & Hout).
  apply outcome_record in Hout as (<- & <- & _ & Hurl & Hpos).
  rewrite Hurl. auto.
Qed.

(** A candidate whose probe was positive has its record in a returned
    catalog. *)
Lemma catalog_complete (urljoin : url_joiner) (net : network)
    (base_url : string) (candidates : list (Z * Z)) (w w' : world) (catalog : Catalog)
    (y m : Z) :
  discover urljoin net base_url candidates w = (Ok catalog, w') ->
  (y, m) ∈ candidates ->
  positive (head_of net (candidate_url urljoin base_url y m)) = true ->
  ∃ r, r ∈ catalog ∧ year r = y ∧ month r = m
       ∧ url r = candidate_url urljoin base_url y m.
Proof.
  intros [-> Hall]%discover_ok Hc Hpos.
  rewrite Forall_forall in Hall. destruct (Hall _ Hc) as [o Ho].
  destruct (outcome_positive urljoin net base_url (y, m) Hpos) as [[r Hr] | [e He]];
    [|congruence].
  exists r. apply outcome_record in Hr as Hfields.
  destruct Hfields as (Hy & Hm & _ & Hurl & _).
  split; [|auto].
  apply elem_of_sort_by_key, elem_of_contributions. eauto.
Qed.

Lemma catalog_sorted (urljoin : url_joiner) (net : network)
    (base_url : string) (candidates : list (Z * Z)) (w w' : world) (catalog : Catalog) :
  discover urljoin net base_url candidates w = (Ok catalog, w') ->
  Sorted key_order catalog.
Proof. intros [-> _]%discover_ok. apply sort_by_key_sorted. Qed.

(** C6: whenever the builder returns a catalog, a record is in it only if
    the probe of its URL was positive, every candidate whose probe was
    positive has its record in it, and it is sorted by (year, month),
    whatever the order in which the candidates were probed. *)
Theorem catalog_invariant (urljoin : url_joiner) (net : network)
    (base_url : string) (candidates : list (Z * Z)) (w : world) (catalog : Catalog) :
  (discover urljoin net base_url candidates w).1 = Ok catalog ->
  (∀ r, r ∈ catalog ->
        (year r, month r) ∈ candidates
        ∧ url r = candidate_url urljoin base_url (year r) (month r)
        ∧ positive (head_of net (url r)) = true)
  ∧ (∀ y m, (y, m) ∈ candidates ->
            positive (head_of net (candidate_url urljoin base_url y m)) = true ->
            ∃ r, r ∈ catalog ∧ year r = y ∧ month r = m
                 ∧ url r = candidate_url urljoin base_url y m)
  ∧ Sorted key_order catalog.
Proof.
  intros Hrun.
  destruct (discover urljoin net base_url candidates w) as [res w'] eqn:Hpair.
  cbn [fst] in Hrun. subst res.
  split; [|split].
  - intros r. now apply (catalog_members _ _ _ _ _ _ _ _ Hpair).
  - intros y m. now apply (catalog_complete _ _ _ _ _ _ _ _ _ Hpair).
  - now apply (catalog_sorted _ _ _ _ _ _ _ Hpair).
Qed.

Lemma catalog_invariant_witness :
  Sorted key_order [jan2020; mar2020]
  ∧ positive (head_of store (url mar2020)) = true.
Proof.
  assert (Hrun : (get_available_files urljoin_dir store base empty_world).1
                 = Ok [jan2020; mar2020])
    by (vm_compute; reflexivity).
  pose proof (catalog_invariant urljoin_dir store base grid empty_world
                [jan2020; mar2020] Hrun) as (Hin & _ & Hsorted).
  split; [exact Hsorted|].
  destruct (Hin mar2020) as (_ & _ & Hpos); [|exact Hpos].
  apply list_elem_of_further, list_elem_of_here.
Defined.

Global Instance key_order_trans : Transitive key_order.
Proof. unfold key_order. intros a b c. lia. Qed.

(** The catalog does not depend on the order of probing. *)
Lemma discover_order_irrelevant (urljoin : url_joiner) (net : network)
    (base_url : string) (cs1 cs2 : list (Z * Z)) (w1 w1' w2 w2' : world)
    (catalog1 catalog2 : Catalog) :
  cs1 ≡ₚ cs2 ->
  discover urljoin net base_url cs1 w1 = (Ok catalog1, w1') ->
  discover urljoin net base_url cs2 w2 = (Ok catalog2, w2') ->
  catalog1 = catalog2.
Proof.
  intros Hperm [-> _]%discover_ok [-> _]%discover_ok.
  apply (Sorted_unique_strong key_order); try apply sort_by_key_sorted.
  - intros x1 x2 H1 H2 H12 H21.
    apply elem_of_sort_by_key, elem_of_contributions in H1 as ([y1 m1] & _ & Ho1).
    apply elem_of_sort_by_key, elem_of_contributions in H2 as ([y2 m2] & _ & Ho2).
    apply outcome_record in Ho1 as Hf1. apply outcome_record in Ho2 as Hf2.
    destruct Hf1 as (Hy1 & Hm1 & _). destruct Hf2 as (Hy2 & Hm2 & _).
    unfold key_order in H12, H21.
    assert (y1 = y2) by lia. assert (m1 = m2) by lia. subst y2 m2.
    congruence.
  - rewrite !sort_by_key_perm. unfold contributions. now rewrite Hperm.
Qed.

(** *** File names *)

Lemma grid_spec (y m : Z) : (y, m) ∈ grid <-> 2013 <= y <= 2024 ∧ 1 <= m <= 12.
Proof.
  unfold grid, range. rewrite list_elem_of_bind. split.
  - intros (y' & Hm & Hy). apply list_elem_of_bind in Hm as (m' & Heq & Hm).
    apply list_elem_of_singleton in Heq. injection Heq as -> ->.
    apply elem_of_seqZ in Hy, Hm. lia.
  - intros [Hy Hm]. exists y. split; [|apply elem_of_seqZ; lia].
    apply list_elem_of_bind. exists m.
    split; [now apply list_elem_of_singleton | apply elem_of_seqZ; lia].
Qed.

Lemma grid_filenames :
  forallb (λ c, String.eqb (candidate_filename c.1 c.2) (pattern_filename c.1 c.2)) grid
  = true.
Proof. vm_compute. reflexivity. Qed.

(** C7: for every year from 2013 to 2024 and every month from 1 to 12 the
    pair is in the probed grid, its file name is the four digits of the
    year, the two digits of the month and "-divvy-tripdata.zip", and its
    URL is [urljoin] of the base URL and that name; 2021, 3 gives
    "202103-divvy-tripdata.zip". *)
Theorem candidate_name_pattern (urljoin : url_joiner)
    (base_url : string) (y m : Z) :
  2013 <= y <= 2024 -> 1 <= m <= 12 ->
  (y, m) ∈ grid
  ∧ candidate_filename y m = pattern_filename y m
  ∧ candidate_url urljoin base_url y m = urljoin base_url (pattern_filename y m)
  ∧ candidate_filename 2021 3 = "202103-divvy-tripdata.zip"%string.
Proof.
  intros Hy Hm.
  assert (Hin : (y, m) ∈ grid) by now apply grid_spec.
  assert (Hname : candidate_filename y m = pattern_filename y m).
  { pose proof grid_filenames as Hall. rewrite forallb_forall in Hall.
    apply list_elem_of_In, Hall in Hin. now apply String.eqb_eq in Hin. }
  split; [exact Hin|]. split; [exact Hname|]. split; [|reflexivity].
  unfold candidate_url. now rewrite Hname.
Qed.

Lemma candidate_name_pattern_witness :
  candidate_url urljoin_dir base 2020 4
  = "https://divvy-tripdata.s3.amazonaws.com/202004-divvy-tripdata.zip"%string.
Proof.
  destruct (candidate_name_pattern urljoin_dir base 2020 4) as (_ & _ & Hurl & _);
    [lia | lia |].
  refine (eq_trans Hurl _). vm_compute. reflexivity.
Defined.

(** *** Probe failures *)



(** The builder returns a catalog unless the outcome of some candidate
    is an error: [urljoin] raises, or a positive probe carries a
    [Content-Length] that [isdigit] accepts and that [int] refuses or
    that is beyond the range of [float]. *)
Lemma discover_returns (urljoin : url_joiner) (net : network)
    (base_url : string) (candidates : list (Z * Z)) (w : world) :
  (∀ c e, c ∈ candidates -> probe_outcome urljoin net base_url c ≠ Raise e) ->
  ∃ w', discover urljoin net base_url candidates w
        = (Ok (sort_by_key (contributions urljoin net base_url candidates)), w')
      ∧ fs w' = fs w
      ∧ requests w'
        = requests w
          ++ map (λ c, HEAD (candidate_url urljoin base_url c.1 c.2)) candidates.
Proof.
  intros Hok.
  destruct (discover_run urljoin net base_url candidates w)
    as [(w' & Hrun & _ & Hfs & Hreq) | (c & e & w' & Hc & Hout & _)].
  - exists w'. auto.
  - now destruct (Hok c e Hc).
Qed.

End CatalogProps.

(** * Properties of the download executor *)

Module DownloadProps.

Import Downloader Spec Fixtures MonadProps.

(** *** What a computation leaves in place *)

Section Preserves.

Context (R : relation (gmap path node)) `{!PreOrder R}.

Lemma preserves_ret {A} (a : A) : preserves R (ret a).
Proof. intros w. reflexivity. Qed.

Lemma preserves_raise {A} (e : exn) : preserves R (@raise A e).
Proof. intros w. reflexivity. Qed.

Lemma preserves_lift {A} (r : result A) : preserves R (lift r).
Proof. intros w. reflexivity. Qed.

Lemma preserves_print (l : line) : preserves R (print l).
Proof. intros w. reflexivity. Qed.

Lemma preserves_send (r : request) : preserves R (send r).
Proof. intros w. reflexivity. Qed.

Lemma preserves_bind {A B} (c : M A) (k : A -> M B) :
  preserves R c -> (∀ a, preserves R (k a)) -> preserves R (bind c k).
Proof.
  intros Hc Hk w. unfold bind. specialize (Hc w).
  destruct (c w) as [[a|e] w1]; cbn [snd] in *; [|exact Hc].
  etransitivity; [exact Hc | apply Hk].
Qed.

Lemma preserves_try_except {A} (body : M A) (catches : exn -> bool)
    (handler : exn -> M A) :
  preserves R body -> (∀ e, preserves R (handler e)) ->
  preserves R (try_except body catches handler).
Proof.
  intros Hb Hh w. unfold try_except. specialize (Hb w).
  destruct (body w) as [[a|e] w1]; cbn [snd] in *; [exact Hb|].
  destruct (catches e); cbn [snd]; [|exact Hb].
  etransitivity; [exact Hb | apply Hh].
Qed.

Lemma preserves_when (b : bool) (c : M unit) :
  preserves R c -> preserves R (when b c).
Proof. destruct b; [auto | intros _; apply preserves_ret]. Qed.

Lemma preserves_for_each {A B} (body : B -> A -> M B) (xs : list A) :
  (∀ acc x, preserves R (body acc x)) -> ∀ acc, preserves R (for_each body xs acc).
Proof.
  intros Hbody. induction xs as [|x xs IH]; intros acc; cbn [for_each].
  - apply preserves_ret.
  - apply preserves_bind; auto.
Qed.

(** A computation that reads the files and then writes [f m] or raises. *)
Lemma preserves_update {A} (k : gmap path node -> M A) :
  (∀ m w, fs w = m -> R m (fs (k m w).2)) -> preserves R (bind get_fs k).
Proof. intros Hk w. unfold bind, get_fs. now apply Hk. Qed.

End Preserves.

Global Instance same_at_preorder (P : path -> Prop) : PreOrder (same_at P).
Proof.
  split.
  - intros m q _. reflexivity.
  - intros m1 m2 m3 H12 H23 q Hq. now rewrite (H23 q Hq), (H12 q Hq).
Qed.

Global Instance no_new_dir_preorder (p : path) : PreOrder (no_new_dir p).
Proof.
  split.
  - intros m H. exact H.
  - intros m1 m2 m3 H12 H23 H. auto.
Qed.

Lemma same_at_weaken (P Q : path -> Prop) {A} (c : M A) :
  (∀ q, Q q -> P q) -> preserves (same_at P) c -> preserves (same_at Q) c.
Proof. intros HPQ Hc w q Hq. apply Hc, HPQ, Hq. Qed.

Lemma same_at_insert (P : path -> Prop) (m : gmap path node) (p : path) (n : node) :
  ¬ P p -> same_at P m (<[p := n]> m).
Proof.
  intros Hp q Hq. apply lookup_insert_ne. intros ->. contradiction.
Qed.

(** *** The [os] calls *)

Lemma path_exists_preserves (R : relation (gmap path node)) `{!PreOrder R} (p : path) :
  preserves R (Os.path_exists p).
Proof. intros w. reflexivity. Qed.

Lemma path_isdir_preserves (R : relation (gmap path node)) `{!PreOrder R} (p : path) :
  preserves R (Os.path_isdir p).
Proof. intros w. reflexivity. Qed.

(** [mkdir] touches nothing but its own path. *)
Lemma mkdir_preserves (p : path) : preserves (same_at (λ q, q ≠ p)) (Os.mkdir p).
Proof.
  intros w. unfold Os.mkdir, bind, get_fs, put_fs, raise.
  destruct p as [|c p]; [reflexivity|].
  destruct (fs w !! (c :: p)); [reflexivity|].
  destruct (Os.is_dir_node _); [|reflexivity].
  cbn [snd fs]. apply same_at_insert. auto.
Qed.

(** [makedirs] touches no path longer than the one it is given. *)
Lemma makedirs_rev_preserves (rname : list string) :
  preserves (same_at (λ q, length rname < length q)%nat) (Os.makedirs_rev rname).
Proof.
  induction rname as [|tail rhead IH]; cbn [Os.makedirs_rev].
  - apply (same_at_weaken (λ q, q ≠ [])); [|apply mkdir_preserves].
    intros q Hq ->. cbn in Hq. lia.
  - apply preserves_bind; [apply _ | |].
    + apply preserves_bind; [apply _ | apply path_exists_preserves; apply _ |].
      intros head_exists. apply preserves_when; [apply _|].
      apply preserves_try_except; [apply _ | | intros e; apply preserves_ret; apply _].
      apply (same_at_weaken (λ q, length rhead < length q)%nat); [|exact IH].
      intros q. cbn [length]. lia.
    + intros _. apply preserves_try_except; [apply _ | |].
      * apply (same_at_weaken (λ q, q ≠ rev (tail :: rhead))); [|apply mkdir_preserves].
        intros q Hq ->. rewrite length_rev in Hq. lia.
      * intros e. apply preserves_bind; [apply _ | apply path_isdir_preserves; apply _ |].
        intros is_dir. destruct (negb is_dir);
          [apply preserves_raise | apply preserves_ret]; apply _.
Qed.

Lemma makedirs_dirname_preserves (p : path) :
  p ≠ [] -> preserves (same_at (λ q, q = p)) (Os.makedirs (dirname p)).
Proof.
  intros Hp. unfold Os.makedirs.
  apply (same_at_weaken (λ q, length (rev (dirname p)) < length q)%nat);
    [|apply makedirs_rev_preserves].
  intros q ->. rewrite length_rev. unfold dirname.
  destruct (exists_last Hp) as (l & a & ->).
  rewrite removelast_last, length_app. cbn. lia.
Qed.

Lemma node_at_nonempty (m : gmap path node) (p : path) :
  p ≠ [] -> Os.node_at m p = m !! p.
Proof. destruct p; [contradiction | reflexivity]. Qed.

Lemma join_nonempty (d : path) (name : string) : join d name ≠ [].
Proof. unfold join. destruct d; discriminate. Qed.

Lemma node_at_join (m : gmap path node) (d : path) (name : string) :
  Os.node_at m (join d name) = m !! join d name.
Proof. apply node_at_nonempty, join_nonempty. Qed.

Lemma is_directory_inv (w : world) (p : path) :
  is_directory w p -> p ≠ [] ∧ ∃ st_size, fs w !! p = Some (Dir st_size).
Proof.
  unfold is_directory. destruct p as [|c p]; [discriminate|]. cbn [Os.node_at].
  destruct (fs w !! (c :: p)) as [[content|st_size]|]; try discriminate.
  intros _. split; [discriminate | eauto].
Qed.

Lemma same_at_no_new_dir (p : path) (m m' : gmap path node) :
  same_at (λ q, q = p) m m' -> no_new_dir p m m'.
Proof.
  intros Hsame. unfold no_new_dir. destruct p as [|c p]; [auto|].
  cbn [Os.node_at]. now rewrite (Hsame (c :: p) eq_refl).
Qed.

Lemma no_new_dir_insert_file (p : path) (m : gmap path node) (content : list Byte.byte) :
  no_new_dir p m (<[p := File content]> m).
Proof.
  intros _. destruct p as [|c p]; [reflexivity|]. cbn [Os.node_at].
  now rewrite lookup_insert_eq.
Qed.

Lemma open_wb_preserves (p : path) : preserves (no_new_dir p) (Os.open_wb p).
Proof.
  intros w. unfold Os.open_wb, bind, get_fs, put_fs, raise.
  destruct p as [|c p]; [reflexivity|].
  destruct (fs w !! (c :: p)) as [[content|st_size]|];
    try reflexivity;
    (destruct (Os.is_dir_node (Os.parent_node (fs w) (c :: p))); [|reflexivity]);
    cbn [snd fs]; apply no_new_dir_insert_file.
Qed.

Lemma write_preserves (p : path) (chunk : list Byte.byte) :
  preserves (no_new_dir p) (Os.write p chunk).
Proof.
  intros w. unfold Os.write, bind, get_fs, put_fs, raise.
  destruct (fs w !! p) as [[content|st_size]|]; try reflexivity.
  cbn [snd fs]. apply no_new_dir_insert_file.
Qed.

Section WithRemote.

Variable net : network.

Lemma session_get_preserves (R : relation (gmap path node)) `{!PreOrder R}
    (url : string) :
  preserves R (session_get net url).
Proof.
  unfold session_get. apply preserves_bind; [apply _ | apply preserves_send; apply _|].
  intros _. apply preserves_bind; [apply _ | |].
  - apply preserves_for_each; [apply _|]. intros [] target.
    apply preserves_send; apply _.
  - intros _. destruct (get_of net url);
      [apply preserves_raise | apply preserves_ret]; apply _.
Qed.

Lemma progress_bar_preserves (R : relation (gmap path node)) `{!PreOrder R}
    (total : Z) :
  preserves R (progress_bar total).
Proof.
  unfold progress_bar. apply preserves_when; [apply _|].
  apply preserves_raise; apply _.
Qed.

Lemma raise_for_status_preserves (R : relation (gmap path node)) `{!PreOrder R}
    (r : response) :
  preserves R (raise_for_status r).
Proof.
  unfold raise_for_status. apply preserves_when; [apply _|].
  apply preserves_raise; apply _.
Qed.

Lemma write_chunks_preserves (p : path) (r : response) :
  preserves (no_new_dir p) (write_chunks p r).
Proof.
  unfold write_chunks. apply preserves_bind; [apply _ | |].
  - apply preserves_for_each; [apply _|]. intros [] chunk.
    apply preserves_when; [apply _ | apply write_preserves].
  - intros _. apply preserves_when; [apply _|]. apply preserves_raise; apply _.
Qed.

(** The attempt never puts a directory at the output path. *)
Lemma download_body_preserves (url : string) (p : path) :
  preserves (no_new_dir p) (download_body net url p).
Proof.
  unfold download_body.
  apply preserves_bind; [apply _ | |].
  { destruct (decide (p = [])) as [-> | Hp].
    - intros w Hw. reflexivity.
    - intros w. apply same_at_no_new_dir, makedirs_dirname_preserves, Hp. }
  intros _. apply preserves_bind; [apply _ | apply session_get_preserves; apply _ |].
  intros r. apply preserves_bind; [apply _ | apply raise_for_status_preserves; apply _ |].
  intros _. apply preserves_bind; [apply _ | apply preserves_lift; apply _ |].
  intros total. apply preserves_bind; [apply _ | apply open_wb_preserves |].
  intros _. apply preserves_bind; [apply _ | apply progress_bar_preserves; apply _ |].
  intros _. apply preserves_bind; [apply _ | apply write_chunks_preserves |].
  intros _. apply preserves_ret; apply _.
Qed.

Lemma download_body_true (url : string) (p : path) (w w' : world) (b : bool) :
  download_body net url p w = (Ok b, w') -> b = true.
Proof.
  unfold download_body, bind, ret.
  repeat case_match; congruence.
Qed.

(** The handler, when the output path is not a directory: the path is
    left empty and [False] is returned. *)
Lemma download_cleanup_run (url : string) (p : path) (e : exn) (w : world) :
  ¬ is_directory w p ->
  ∃ w', download_cleanup url p e w = (Ok false, w')
        ∧ absent w' p
        ∧ same_at (λ q, q ≠ p) (fs w) (fs w')
        ∧ requests w' = requests w.
Proof.
  unfold is_directory, absent, download_cleanup, Os.path_exists, Os.remove, when.
  unfold bind, print, get_fs, put_fs, ret, raise. cbn beta iota delta [fs requests stdout].
  intros Hdir.
  destruct (Os.node_at (fs w) p) as [[content|st_size]|] eqn:Hnode;
    cbn in *; rewrite ?Hnode.
  - eexists. split; [reflexivity|]. cbn [fs requests].
    split; [|split; [|reflexivity]].
    + destruct p as [|c p]; [reflexivity|]. cbn [Os.node_at]. apply lookup_delete_eq.
    + intros q Hq. now apply lookup_delete_ne.
  - now destruct Hdir.
  - eexists. split; [reflexivity|]. cbn [fs requests].
    split; [exact Hnode|]. split; [|reflexivity]. intros q _. reflexivity.
Qed.

(** The part of C2 that holds: when the output path is not a
    directory, [download_file] always returns, and when it returns
    [False] nothing is left at the output path. *)
Lemma download_file_cleans_up (url : string) (p : path) (w : world) :
  ¬ is_directory w p ->
  ∃ b w', download_file net url p w = (Ok b, w')
          ∧ (b = false -> absent w' p).
Proof.
  intros Hdir. unfold download_file, try_except.
  pose proof (download_body_preserves url p w) as Hkept.
  destruct (download_body net url p w) as [[b|e] w1] eqn:Hbody; cbn [snd] in Hkept.
  - exists b, w1. split; [reflexivity|].
    intros ->. apply download_body_true in Hbody. discriminate.
  - cbn [except_Exception].
    destruct (download_cleanup_run url p e w1) as (w2 & Hrun & Habsent & _).
    + unfold is_directory in *. rewrite Hkept; [discriminate|].
      now destruct (Os.is_dir_node (Os.node_at (fs w) p)).
    + exists false, w2. auto.
Qed.

(** With a directory at the output path the attempt cannot succeed. *)
Lemma download_body_directory (url : string) (p : path) (w : world) :
  is_directory w p ->
  ∃ e w', download_body net url p w = (Raise e, w') ∧ is_directory w' p.
Proof.
  intros Hdir. destruct (is_directory_inv w p Hdir) as (Hp & st_size & Hnode).
  assert (Hkeep : ∀ w', fs w' !! p = Some (Dir st_size) -> is_directory w' p).
  { intros w' Hw'. unfold is_directory. now rewrite (node_at_nonempty _ _ Hp), Hw'. }
  unfold download_body, bind.
  pose proof (makedirs_dirname_preserves p Hp w p eq_refl) as Hsame.
  destruct (Os.makedirs (dirname p) w) as [[[]|e] w1]; cbn [snd] in Hsame;
    rewrite Hnode in Hsame; [|eauto].
  pose proof (session_get_preserves eq url w1) as Hget. cbn beta in Hget.
  destruct (session_get net url w1) as [[r|e] w2]; cbn [snd] in Hget;
    rewrite Hget in Hsame; [|eauto].
  unfold raise_for_status, when.
  destruct ((400 <=? status_code r) && (status_code r <? 600));
    [unfold raise; eauto|].
  unfold ret, lift. destruct (total_size r) as [total|e]; [|eauto].
  unfold Os.open_wb, bind, get_fs. cbn [fs].
  destruct p as [|c p]; [contradiction|]. rewrite Hsame.
  unfold raise. eauto.
Qed.

(** ... and the handler's [os.remove] raises in its turn: the call
    never returns [False], the error leaves [download_file]. *)
Lemma download_file_directory (url : string) (p : path) (w : world) :
  is_directory w p ->
  ∃ w', download_file net url p w = (Raise IsADirectoryError, w').
Proof.
  intros Hdir. unfold download_file, try_except.
  destruct (download_body_directory url p w Hdir) as (e & w1 & -> & Hdir1).
  cbn [except_Exception].
  unfold is_directory in Hdir1.
  unfold download_cleanup, Os.path_exists, Os.remove, when.
  unfold bind, print, get_fs, ret, raise. cbn.
  destruct (Os.node_at (fs w1) p) as [[content|st_size]|] eqn:Hnode;
    try discriminate.
  cbn. rewrite Hnode. eauto.
Qed.

(** *** The download loop *)

Lemma already_downloaded_file (output_path : path) (file : FileRecord) (w : world)
    (content : list Byte.byte) :
  output_path ≠ [] ->
  fs w !! output_path = Some (File content) ->
  already_downloaded output_path file w
  = (Ok (Z.of_nat (length content) =? size file), w).
Proof.
  intros Hp Hnode.
  unfold already_downloaded, Os.path_exists, Os.path_getsize, bind, get_fs, ret.
  rewrite (node_at_nonempty _ _ Hp), Hnode. cbn.
  rewrite (node_at_nonempty _ _ Hp), Hnode. reflexivity.
Qed.

Lemma already_downloaded_returns (output_path : path) (file : FileRecord) (w : world) :
  ∃ skip, already_downloaded output_path file w = (Ok skip, w).
Proof.
  unfold already_downloaded, Os.path_exists, Os.path_getsize, bind, get_fs, ret.
  destruct (Os.node_at (fs w) output_path) as [[content|st_size]|] eqn:Hnode;
    cbn; rewrite ?Hnode; eauto.
Qed.

Lemma download_step_skips (output_dir : path) (n : Z) (file : FileRecord) (w : world)
    (content : list Byte.byte) :
  fs w !! join output_dir (filename file) = Some (File content) ->
  Z.of_nat (length content) = size file ->
  download_step net output_dir n file w
  = (Ok (n + 1), printed (Skipping (filename file)) w).
Proof.
  intros Hnode Hsize. unfold download_step, bind at 1.
  rewrite (already_downloaded_file _ _ _ content (join_nonempty _ _) Hnode).
  apply Z.eqb_eq in Hsize. rewrite Hsize. reflexivity.
Qed.

End WithRemote.

(** C1: when the loop reaches a record whose output path holds a file of
    exactly the record's size, the step for that record sends no
    request, leaves the local files as they are, adds one to the count
    of successes, and the loop goes on with the next record. *)
Theorem skip_rule (net : network) (output_dir : path)
    (before after : list FileRecord) (file : FileRecord)
    (n n1 : Z) (w w1 : world) (content : list Byte.byte) :
  download_all net output_dir before n w = (Ok n1, w1) ->
  fs w1 !! join output_dir (filename file) = Some (File content) ->
  Z.of_nat (length content) = size file ->
  ∃ w2, download_step net output_dir n1 file w1 = (Ok (n1 + 1), w2)
        ∧ requests w2 = requests w1
        ∧ fs w2 = fs w1
        ∧ download_all net output_dir (before ++ file :: after) n w
          = download_all net output_dir after (n1 + 1) w2.
Proof.
  intros Hbefore Hnode Hsize.
  exists (printed (Skipping (filename file)) w1).
  pose proof (download_step_skips net output_dir n1 file w1 content Hnode Hsize) as Hstep.
  split; [exact Hstep|]. split; [reflexivity|]. split; [reflexivity|].
  unfold download_all in *. rewrite for_each_app, Hbefore, for_each_cons, Hstep.
  reflexivity.
Qed.

Lemma skip_rule_witness :
  ∃ w2, download_step store ["data"%string] 0 jan2020 mirrored_world = (Ok 1, w2)
        ∧ requests w2 = []
        ∧ fs w2 = fs mirrored_world.
Proof.
  destruct (skip_rule store ["data"%string] [] [mar2020] jan2020 0 0
              mirrored_world mirrored_world
              [Byte.x50; Byte.x4b; Byte.x03; Byte.x04])
    as (w2 & Hstep & Hreq & Hfs & _).
  - reflexivity.
  - vm_compute. reflexivity.
  - reflexivity.
  - exists w2. split; [exact Hstep|]. split; [exact Hreq | exact Hfs].
Defined.

(** A failed transfer is contained when the output path is not a
    directory: the step returns, the count does not grow, and nothing is
    left at the output path. *)
Lemma download_step_returns (net : network) (output_dir : path) (n : Z)
    (file : FileRecord) (w : world) :
  ¬ is_directory w (join output_dir (filename file)) ->
  ∃ n' w', download_step net output_dir n file w = (Ok n', w')
           ∧ (n' = n + 1 ∨ (n' = n ∧ absent w' (join output_dir (filename file)))).
Proof.
  intros Hdir. unfold download_step, bind at 1.
  destruct (already_downloaded_returns (join output_dir (filename file)) file w)
    as [skip ->].
  destruct skip.
  - eexists _, _. split; [reflexivity | left; reflexivity].
  - unfold bind, print, ret. cbn [fs requests stdout].
    destruct (download_file_cleans_up net (url file)
                (join output_dir (filename file))
                (mkWorld (fs w) (requests w)
                   (stdout w ++ [Downloading (filename file) (size_mb file)])))
      as (b & w2 & -> & Hclean); [exact Hdir|].
    eexists _, _. split; [reflexivity|].
    destruct b; [left; reflexivity | right; auto].
Qed.

(** C2, where the code departs from it: with a directory at the first
    record's output path, [open] fails, the handler's [os.remove] fails
    too, and the error leaves [download_file], the loop and [main]; the
    second record is never requested. *)
Theorem download_cleanup_escapes :
  is_directory unpacked_world (join ["data"%string] (filename jan2020))
  ∧ (download_file store (url jan2020) (join ["data"%string] (filename jan2020))
       unpacked_world).1
    = Raise IsADirectoryError
  ∧ (download_all store ["data"%string] [jan2020; mar2020] 0 unpacked_world).1
    = Raise IsADirectoryError
  ∧ requests (download_all store ["data"%string] [jan2020; mar2020] 0 unpacked_world).2
    = [GET (url jan2020)]
  ∧ (main urljoin_dir store (mkArgs base ["data"%string] None None false)
       unpacked_world).1
    = Raise IsADirectoryError.
Proof. vm_compute. repeat split; reflexivity. Qed.

End DownloadProps.

(** * Further properties of the filter stage *)

Module FilterMore.

Import Filters Spec Fixtures Notions FilterProps.

Lemma bool_filter_sublist {A} (b : A -> bool) (l : list A) :
  List.filter b l `sublist_of` l.
Proof.
  induction l as [|x l IH]; cbn [List.filter]; [constructor|].
  destruct (b x); now constructor.
Qed.

Lemma comprehension_sublist (cond : FileRecord -> result bool) (files kept : list FileRecord) :
  comprehension cond files = Ok kept -> kept `sublist_of` files.
Proof.
  revert kept. induction files as [|file rest IH]; intros kept; cbn [comprehension].
  - intros [= <-]. constructor.
  - destruct (cond file) as [keep|e]; cbn [rbind]; [|discriminate].
    destruct (comprehension cond rest) as [kept'|e]; cbn [rbind]; [|discriminate].
    intros [= <-]. destruct keep; constructor; now apply IH.
Qed.

Lemma arg_in_Some (quarter_arg : option Z) :
  arg_in quarter_arg [1; 2; 3; 4] = true -> ∃ q, quarter_arg = Some q ∧ valid_quarter q.
Proof.
  destruct quarter_arg as [q|]; [|discriminate].
  intros H. exists q. split; [reflexivity | now apply arg_in_valid].
Qed.

(** Past the guards the comprehension is a plain Boolean filter: the
    dictionary always has the quarter. *)
Lemma comprehension_valid (year_arg : option Z) (q : Z) (files : list FileRecord) :
  valid_quarter q ->
  comprehension (quarter_condition year_arg (Some q)) files
  = Ok (List.filter (fun file => eq_arg (year file) year_arg
                                 && int_in (month file) (quarter_group q)) files).
Proof.
  intros Hq. apply comprehension_total. intros file. unfold quarter_condition.
  rewrite (quarter_months_valid q Hq).
  destruct (eq_arg (year file) year_arg); reflexivity.
Qed.

(** X1: whatever the arguments, both filters return a selection of their
    input in its original order, and the only error the quarter filter
    can raise is its own [ValueError]: the look-up in [quarter_months]
    never fails. *)
Theorem filters_select (files : list FileRecord) (year_arg quarter_arg : option Z) :
  filter_files_by_year files year_arg `sublist_of` files
  ∧ match filter_files_by_quarter files year_arg quarter_arg with
    | Ok kept => kept `sublist_of` files
    | Raise e => e = ValueError "Quarter must be 1, 2, 3, or 4"
    end.
Proof.
  split.
  - unfold filter_files_by_year. destruct (negb (truthy year_arg)).
    + reflexivity.
    + apply bool_filter_sublist.
  - unfold filter_files_by_quarter.
    destruct (negb (truthy year_arg) || negb (truthy quarter_arg)); [reflexivity|].
    destruct (arg_in quarter_arg [1; 2; 3; 4]) eqn:Hin; cbn [negb]; [|reflexivity].
    apply arg_in_Some in Hin as (q & -> & Hq).
    rewrite (comprehension_valid year_arg q files Hq). apply bool_filter_sublist.
Qed.

Lemma year_filter_eq (catalog : Catalog) (y : Z) :
  y ≠ 0 ->
  filter_files_by_year catalog (Some y)
  = List.filter (fun file => eq_arg (year file) (Some y)) catalog.
Proof.
  intros Hy. unfold filter_files_by_year. now rewrite (truthy_nonzero y Hy).
Qed.

Lemma quarter_filter_eq (catalog : Catalog) (y q : Z) :
  y ≠ 0 -> valid_quarter q ->
  filter_files_by_quarter catalog (Some y) (Some q)
  = Ok (List.filter (fun file => eq_arg (year file) (Some y)
                                 && int_in (month file) (quarter_group q)) catalog).
Proof.
  intros Hy Hq. unfold filter_files_by_quarter.
  assert (Hq0 : q ≠ 0) by (apply valid_quarter_cases in Hq; lia).
  rewrite (truthy_nonzero y Hy), (truthy_nonzero q Hq0).
  apply arg_in_valid in Hq as Hin. rewrite Hin. cbn [negb orb].
  now apply comprehension_valid.
Qed.

(** A record of the year with a calendar month passes the test of exactly
    one quarter. *)
Lemma one_quarter_per_month (m : Z) :
  1 <= m <= 12 ->
  (int_in m (quarter_group 1), int_in m (quarter_group 2),
   int_in m (quarter_group 3), int_in m (quarter_group 4))
  ∈ [(true, false, false, false); (false, true, false, false);
     (false, false, true, false); (false, false, false, true)].
Proof.
  intros Hm.
  assert (Hcases : m ∈ seqZ 1 12) by (apply elem_of_seqZ; lia).
  vm_compute in Hcases.
  repeat (apply elem_of_cons in Hcases as [-> | Hcases];
          [vm_compute;
           solve [repeat first [apply list_elem_of_here | apply list_elem_of_further]] |]).
  now apply elem_of_nil in Hcases.
Qed.

Lemma insert_third {A} (x : A) (a b c d : list A) :
  x :: a ++ b ++ c ++ d ≡ₚ a ++ b ++ (x :: c) ++ d.
Proof.
  rewrite !(app_assoc a b). apply Permutation_middle.
Qed.

Lemma quarters_cover (y : Z) (catalog : Catalog) :
  Forall calendar_month catalog ->
  List.filter (fun file => eq_arg (year file) (Some y)) catalog
  ≡ₚ List.filter (fun file => eq_arg (year file) (Some y)
                              && int_in (month file) (quarter_group 1)) catalog
     ++ List.filter (fun file => eq_arg (year file) (Some y)
                                 && int_in (month file) (quarter_group 2)) catalog
     ++ List.filter (fun file => eq_arg (year file) (Some y)
                                 && int_in (month file) (quarter_group 3)) catalog
     ++ List.filter (fun file => eq_arg (year file) (Some y)
                                 && int_in (month file) (quarter_group 4)) catalog.
Proof.
  induction 1 as [|r l Hr _ IH]; [reflexivity|].
  cbn [List.filter]. destruct (eq_arg (year r) (Some y)); cbn [andb]; [|exact IH].
  pose proof (one_quarter_per_month (month r) Hr) as Hone.
  destruct (int_in _ (quarter_group 1)), (int_in _ (quarter_group 2)),
    (int_in _ (quarter_group 3)), (int_in _ (quarter_group 4));
    try (exfalso; repeat (apply elem_of_cons in Hone as [[=] | Hone]);
         now apply elem_of_nil in Hone).
  - cbn [app]. apply perm_skip, IH.
  - rewrite IH. apply Permutation_middle.
  - rewrite IH. apply (insert_third r).
  - rewrite IH, !app_assoc. apply Permutation_middle.
Qed.

(** X2: in a catalog whose months are calendar months, the four quarter
    selections of a year (other than 0) all succeed and together hold
    exactly the records the year filter selects, each once. *)
Theorem quarters_partition_year (catalog : Catalog) (y : Z) :
  y ≠ 0 -> Forall calendar_month catalog ->
  ∃ q1 q2 q3 q4,
    filter_files_by_quarter catalog (Some y) (Some 1) = Ok q1
    ∧ filter_files_by_quarter catalog (Some y) (Some 2) = Ok q2
    ∧ filter_files_by_quarter catalog (Some y) (Some 3) = Ok q3
    ∧ filter_files_by_quarter catalog (Some y) (Some 4) = Ok q4
    ∧ filter_files_by_year catalog (Some y) ≡ₚ q1 ++ q2 ++ q3 ++ q4.
Proof.
  intros Hy Hmonths.
  eexists _, _, _, _.
  repeat (split; [apply (quarter_filter_eq catalog y _ Hy), valid_quarter_cases; lia|]).
  rewrite (year_filter_eq catalog y Hy). now apply quarters_cover.
Qed.

Lemma quarters_partition_year_witness :
  filter_files_by_year sample_catalog (Some 2021) ≡ₚ [] ++ [apr2021] ++ [jul2021] ++ [].
Proof.
  destruct (quarters_partition_year sample_catalog 2021) as
    (q1 & q2 & q3 & q4 & H1 & H2 & H3 & H4 & Hperm).
  - lia.
  - unfold calendar_month. repeat constructor; vm_compute; discriminate.
  - vm_compute in H1, H2, H3, H4.
    injection H1 as <-. injection H2 as <-. injection H3 as <-. injection H4 as <-.
    exact Hperm.
Defined.

Lemma bool_filter_idempotent {A} (b : A -> bool) (l : list A) :
  List.filter b (List.filter b l) = List.filter b l.
Proof.
  induction l as [|x l IH]; [reflexivity|].
  cbn [List.filter]. destruct (b x) eqn:Hx; [|exact IH].
  cbn [List.filter]. now rewrite Hx, IH.
Qed.

Lemma comprehension_idempotent (cond : FileRecord -> result bool)
    (files kept : list FileRecord) :
  comprehension cond files = Ok kept -> comprehension cond kept = Ok kept.
Proof.
  revert kept. induction files as [|file rest IH]; intros kept; cbn [comprehension].
  - now intros [= <-].
  - destruct (cond file) as [keep|e] eqn:Hcond; cbn [rbind]; [|discriminate].
    destruct (comprehension cond rest) as [kept'|e]; cbn [rbind]; [|discriminate].
    intros [= <-]. destruct keep; [|now apply IH].
    cbn [comprehension]. rewrite Hcond, (IH kept' eq_refl). reflexivity.
Qed.

(** X3: filtering what a filter returned, with the same arguments, changes
    nothing more. *)
Theorem filters_idempotent (files kept : list FileRecord) (year_arg quarter_arg : option Z) :
  filter_files_by_quarter files year_arg quarter_arg = Ok kept ->
  filter_files_by_quarter kept year_arg quarter_arg = Ok kept
  ∧ filter_files_by_year (filter_files_by_year files year_arg) year_arg
    = filter_files_by_year files year_arg.
Proof.
  intros Hkept. split.
  - revert Hkept. unfold filter_files_by_quarter.
    destruct (negb (truthy year_arg) || negb (truthy quarter_arg)); [now intros [= <-]|].
    destruct (negb (arg_in quarter_arg [1; 2; 3; 4])); [discriminate|].
    apply comprehension_idempotent.
  - unfold filter_files_by_year. destruct (negb (truthy year_arg)); [reflexivity|].
    apply bool_filter_idempotent.
Qed.

Lemma filters_idempotent_witness :
  filter_files_by_quarter [apr2021] (Some 2021) (Some 2) = Ok [apr2021].
Proof.
  apply (filters_idempotent sample_catalog [apr2021] (Some 2021) (Some 2)).
  vm_compute. reflexivity.
Defined.

(** X4: the filter stage of [main] sends nothing and touches no file; with
    a true year and a true quarter it selects what the quarter filter
    selects from the whole catalog, with a true year alone what the year
    filter selects, and without a true year it selects everything, a
    quarter given alone being ignored. *)
Theorem main_filter_stage (args : Downloader.Args) (all_files : Catalog) (w : world) :
  (Downloader.apply_filters args all_files w).1
  = (if truthy (Downloader.arg_year args)
     then if truthy (Downloader.arg_quarter args)
          then filter_files_by_quarter all_files (Downloader.arg_year args)
                                       (Downloader.arg_quarter args)
          else Ok (filter_files_by_year all_files (Downloader.arg_year args))
     else Ok all_files)
  ∧ fs (Downloader.apply_filters args all_files w).2 = fs w
  ∧ requests (Downloader.apply_filters args all_files w).2 = requests w.
Proof.
  split; [apply apply_filters_layered|].
  unfold Downloader.apply_filters, bind, print, ret, lift.
  destruct (truthy (Downloader.arg_year args)); cbn [andb fst snd fs requests].
  - destruct (truthy (Downloader.arg_quarter args)); cbn [fst snd fs requests]; [|auto].
    destruct (filter_files_by_quarter _ _ _); cbn [fst snd fs requests]; auto.
  - auto.
Qed.

End FilterMore.

(** * What a computation sends *)

Module Traffic.

Import Downloader Spec Notions MonadProps.

Lemma adds_weaken {A} (l l' : list request) (c : M A) :
  l `sublist_of` l' -> adds l c -> adds l' c.
Proof.
  intros Hl Hc w. destruct (Hc w) as (rs & Hrs & Heq).
  exists rs. split; [now transitivity l | exact Heq].
Qed.

Lemma adds_silent {A} (c : M A) :
  (∀ w, requests (c w).2 = requests w) -> adds [] c.
Proof.
  intros Hc w. exists []. split; [constructor|]. now rewrite app_nil_r.
Qed.

Lemma adds_ret {A} (a : A) : adds [] (ret a).
Proof. now apply adds_silent. Qed.

Lemma adds_raise {A} (e : exn) : adds [] (@raise A e).
Proof. now apply adds_silent. Qed.

Lemma adds_lift {A} (r : result A) : adds [] (lift r).
Proof. now apply adds_silent. Qed.

Lemma adds_print (l : line) : adds [] (print l).
Proof. now apply adds_silent. Qed.

Lemma adds_send (r : request) : adds [r] (send r).
Proof. intros w. exists [r]. split; reflexivity. Qed.

Lemma adds_bind {A B} (l1 l2 : list request) (c : M A) (k : A -> M B) :
  adds l1 c -> (∀ a, adds l2 (k a)) -> adds (l1 ++ l2) (bind c k).
Proof.
  intros Hc Hk w. unfold bind. destruct (Hc w) as (rs1 & Hrs1 & Heq1).
  destruct (c w) as [[a|e] w1]; cbn [snd] in *.
  - destruct (Hk a w1) as (rs2 & Hrs2 & Heq2).
    exists (rs1 ++ rs2). split; [now apply sublist_app|].
    now rewrite Heq2, Heq1, app_assoc.
  - exists rs1. split; [now apply sublist_inserts_r | exact Heq1].
Qed.

Lemma adds_try_except {A} (l1 l2 : list request) (body : M A) (catches : exn -> bool)
    (handler : exn -> M A) :
  adds l1 body -> (∀ e, adds l2 (handler e)) ->
  adds (l1 ++ l2) (try_except body catches handler).
Proof.
  intros Hb Hh w. unfold try_except. destruct (Hb w) as (rs1 & Hrs1 & Heq1).
  destruct (body w) as [[a|e] w1]; cbn [snd] in *.
  - exists rs1. split; [now apply sublist_inserts_r | exact Heq1].
  - destruct (catches e); cbn [snd].
    + destruct (Hh e w1) as (rs2 & Hrs2 & Heq2).
      exists (rs1 ++ rs2). split; [now apply sublist_app|].
      now rewrite Heq2, Heq1, app_assoc.
    + exists rs1. split; [now apply sublist_inserts_r | exact Heq1].
Qed.

Lemma adds_when (l : list request) (b : bool) (c : M unit) :
  adds l c -> adds l (when b c).
Proof.
  intros Hc. destruct b; [exact Hc|].
  apply (adds_weaken []); [apply sublist_nil_l | apply adds_ret].
Qed.

Lemma adds_for_each {A B} (f : A -> list request) (body : B -> A -> M B) (xs : list A) :
  (∀ acc x, adds (f x) (body acc x)) ->
  ∀ acc, adds (xs ≫= f) (for_each body xs acc).
Proof.
  intros Hbody. induction xs as [|x xs IH]; intros acc; cbn [for_each].
  - apply adds_ret.
  - change ((x :: xs) ≫= f) with (f x ++ (xs ≫= f)). now apply adds_bind.
Qed.

(** A chain of silent steps is silent. *)
Lemma adds_bind_silent {A B} (l : list request) (c : M A) (k : A -> M B) :
  adds [] c -> (∀ a, adds l (k a)) -> adds l (bind c k).
Proof. intros Hc Hk. change l with ([] ++ l). now apply adds_bind. Qed.

(** *** The [os] calls send nothing *)

Lemma path_exists_silent (p : path) : adds [] (Os.path_exists p).
Proof. now apply adds_silent. Qed.

Lemma path_isdir_silent (p : path) : adds [] (Os.path_isdir p).
Proof. now apply adds_silent. Qed.

Lemma path_getsize_silent (p : path) : adds [] (Os.path_getsize p).
Proof.
  apply adds_silent. intros w. unfold Os.path_getsize, bind, get_fs.
  now destruct (Os.node_at (fs w) p) as [[?|?]|].
Qed.

Lemma mkdir_silent (p : path) : adds [] (Os.mkdir p).
Proof.
  apply adds_silent. intros w. unfold Os.mkdir, bind, get_fs, put_fs, raise.
  destruct p as [|c p]; [reflexivity|].
  destruct (fs w !! (c :: p)); [reflexivity|].
  now destruct (Os.is_dir_node _).
Qed.

Lemma makedirs_rev_silent (rname : list string) : adds [] (Os.makedirs_rev rname).
Proof.
  induction rname as [|tail rhead IH]; cbn [Os.makedirs_rev]; [apply mkdir_silent|].
  apply adds_bind_silent.
  - apply adds_bind_silent; [apply path_exists_silent|].
    intros head_exists. apply adds_when.
    change (@nil request) with (@nil request ++ []).
    apply adds_try_except; [exact IH | intros e; apply adds_ret].
  - intros _. change (@nil request) with (@nil request ++ []).
    apply adds_try_except; [apply mkdir_silent|].
    intros e. apply adds_bind_silent; [apply path_isdir_silent|].
    intros is_dir. destruct (negb is_dir); [apply adds_raise | apply adds_ret].
Qed.

Lemma makedirs_silent (name : path) : adds [] (Os.makedirs name).
Proof. apply makedirs_rev_silent. Qed.

Lemma open_wb_silent (p : path) : adds [] (Os.open_wb p).
Proof.
  apply adds_silent. intros w. unfold Os.open_wb, bind, get_fs, put_fs, raise.
  destruct p as [|c p]; [reflexivity|].
  destruct (fs w !! (c :: p)) as [[?|?]|]; try reflexivity;
    now destruct (Os.is_dir_node _).
Qed.

Lemma write_silent (p : path) (chunk : list Byte.byte) : adds [] (Os.write p chunk).
Proof.
  apply adds_silent. intros w. unfold Os.write, bind, get_fs, put_fs, raise.
  now destruct (fs w !! p) as [[?|?]|].
Qed.

Lemma remove_silent (p : path) : adds [] (Os.remove p).
Proof.
  apply adds_silent. intros w. unfold Os.remove, bind, get_fs, put_fs, raise.
  now destruct (Os.node_at (fs w) p) as [[?|?]|].
Qed.

End Traffic.

(** * Further properties of the catalog builder *)

Module CatalogMore.

Import Downloader Spec Fixtures Notions MonadProps CatalogProps Traffic.

Section WithRemote.

Variable urljoin : url_joiner.
Variable net : network.
Variable base_url : string.

Lemma probe_keeps_files (discovered : list FileRecord) (c : Z * Z) (w : world) :
  fs (probe urljoin net base_url discovered c w).2 = fs w.
Proof.
  destruct c as [y m]. rewrite probe_run.
  destruct (join_error urljoin base_url _); [reflexivity|]. cbn zeta.
  now destruct (probe_outcome urljoin net base_url (y, m)) as [[r|]|e].
Qed.

Lemma probe_adds (discovered : list FileRecord) (c : Z * Z) :
  adds [HEAD (candidate_url urljoin base_url c.1 c.2)]
       (probe urljoin net base_url discovered c).
Proof.
  intros w. destruct c as [y m]. rewrite probe_run. cbn [fst snd].
  destruct (join_error urljoin base_url _).
  - exists []. split; [apply sublist_nil_l|]. cbn [snd]. now rewrite app_nil_r.
  - eexists. split; [reflexivity|]. cbn zeta.
    now destruct (probe_outcome urljoin net base_url (y, m)) as [[r|]|e].
Qed.

Lemma discover_adds (cs : list (Z * Z)) :
  adds (probe_requests urljoin base_url cs) (discover urljoin net base_url cs).
Proof.
  unfold discover. apply adds_bind_silent; [apply adds_print|]. intros _.
  rewrite <- (app_nil_r (probe_requests urljoin base_url cs)).
  apply adds_bind; [|intros a; apply adds_ret].
  unfold probe_requests.
  replace (map _ cs)
    with (cs ≫= λ c, [HEAD (candidate_url urljoin base_url c.1 c.2)]).
  - apply adds_for_each. intros acc x. apply probe_adds.
  - induction cs as [|c cs IH]; [reflexivity|]. cbn. now rewrite <- IH.
Qed.

Lemma discover_keeps_files (cs : list (Z * Z)) (w : world) :
  fs (discover urljoin net base_url cs w).2 = fs w.
Proof.
  unfold discover.
  assert (Hloop : ∀ cs acc w, fs (for_each (probe urljoin net base_url) cs acc w).2 = fs w).
  { clear. induction cs as [|c cs IH]; intros acc w; [reflexivity|].
    rewrite for_each_cons.
    pose proof (probe_keeps_files acc c w) as Hfs.
    destruct (probe urljoin net base_url acc c w) as [[acc'|e] w1]; cbn [snd] in *.
    - now rewrite IH.
    - exact Hfs. }
  unfold bind at 1, print.
  specialize (Hloop cs [] (mkWorld (fs w) (requests w) (stdout w ++ [Discovering]))).
  unfold bind, ret.
  destruct (for_each _ cs [] _) as [[found|e] w1]; exact Hloop.
Qed.

End WithRemote.

Lemma grid_length : length grid = 144%nat.
Proof. reflexivity. Qed.

(** X5: [get_available_files] never changes a local file and sends nothing
    but HEAD requests for candidate URLs, in the order of the grid; when
    it returns a catalog it has sent exactly one per pair of the grid,
    144 in all. *)
Theorem builder_traffic (urljoin : url_joiner) (net : network)
    (base_url : string) (w : world) :
  fs (get_available_files urljoin net base_url w).2 = fs w
  ∧ (∃ rs, rs `sublist_of` probe_requests urljoin base_url grid
           ∧ requests (get_available_files urljoin net base_url w).2 = requests w ++ rs)
  ∧ (∀ catalog,
       (get_available_files urljoin net base_url w).1 = Ok catalog ->
       requests (get_available_files urljoin net base_url w).2
       = requests w ++ probe_requests urljoin base_url grid)
  ∧ length (probe_requests urljoin base_url grid) = 144%nat.
Proof.
  unfold get_available_files. split; [apply discover_keeps_files|].
  split; [apply discover_adds|]. split.
  - intros catalog Hrun.
    destruct (discover_run urljoin net base_url grid w)
      as [(w1 & H1 & _ & _ & Hreq) | (c & e & w1 & _ & _ & H1)];
      rewrite H1 in *; cbn [fst snd] in *; [exact Hreq | discriminate].
  - unfold probe_requests. now rewrite length_map.
Qed.

Lemma builder_traffic_witness :
  requests (get_available_files urljoin_dir store base empty_world).2
  = probe_requests urljoin_dir base grid.
Proof.
  destruct (builder_traffic urljoin_dir store base empty_world) as (_ & _ & Hall & _).
  apply (Hall [jan2020; mar2020]). vm_compute. reflexivity.
Defined.

(** *** Keys, counts and names *)

Section Keys.

Variable urljoin : url_joiner.
Variable net : network.
Variable base_url : string.

Lemma contributions_keys (cs : list (Z * Z)) :
  key_of <$> contributions urljoin net base_url cs `sublist_of` cs.
Proof.
  induction cs as [|[y m] cs IH]; [constructor|].
  rewrite contributions_cons, fmap_app.
  destruct (probe_outcome urljoin net base_url (y, m)) as [[r|]|e] eqn:Hout;
    cbn [app fmap list_fmap].
  - apply outcome_record in Hout as (Hy & Hm & _). unfold key_of at 1.
    rewrite Hy, Hm. now constructor.
  - now constructor.
  - now constructor.
Qed.

Lemma strictly_sorted (l : list FileRecord) :
  StronglySorted key_order l -> NoDup (key_of <$> l) -> StronglySorted key_lt l.
Proof.
  induction 1 as [|r l Hl IH Hr]; intros Hnd; [constructor|].
  rewrite fmap_cons in Hnd. apply NoDup_cons in Hnd as [Hnotin Hnd].
  constructor; [now apply IH|].
  rewrite Forall_forall in Hr |- *. intros r' Hr'.
  specialize (Hr r' Hr'). unfold key_order in Hr. unfold key_lt.
  destruct (decide (key_of r = key_of r')) as [Heq|Hne].
  - exfalso. apply Hnotin. rewrite Heq. apply list_elem_of_fmap. eauto.
  - unfold key_of in Hne.
    destruct Hr as [Hlt | [Hy Hm]]; [now left|].
    right. split; [exact Hy|].
    destruct (decide (month r = month r')) as [Hmm|Hmm]; [|lia].
    destruct Hne. now rewrite Hy, Hmm.
Qed.

Lemma catalog_keys_distinct (cs : list (Z * Z)) :
  NoDup cs -> NoDup (key_of <$> sort_by_key (contributions urljoin net base_url cs)).
Proof.
  intros Hcs. rewrite sort_by_key_perm.
  apply (sublist_NoDup _ cs); [exact Hcs | apply contributions_keys].
Qed.

Lemma same_key_same_record (cs : list (Z * Z)) (r1 r2 : FileRecord) :
  r1 ∈ contributions urljoin net base_url cs ->
  r2 ∈ contributions urljoin net base_url cs ->
  key_of r1 = key_of r2 -> r1 = r2.
Proof.
  intros ([y1 m1] & _ & H1)%elem_of_contributions ([y2 m2] & _ & H2)%elem_of_contributions.
  apply outcome_record in H1 as Hf1. apply outcome_record in H2 as Hf2.
  destruct Hf1 as (Hy1 & Hm1 & _). destruct Hf2 as (Hy2 & Hm2 & _).
  unfold key_of. rewrite Hy1, Hm1, Hy2, Hm2. intros [= -> ->]. congruence.
Qed.

Lemma contributions_length (cs : list (Z * Z)) :
  Forall (λ c, ∃ o, probe_outcome urljoin net base_url c = Ok o) cs ->
  length (contributions urljoin net base_url cs)
  = length (List.filter
              (λ c, positive (head_of net (candidate_url urljoin base_url c.1 c.2))) cs).
Proof.
  induction 1 as [|c cs [o Ho] _ IH]; [reflexivity|].
  rewrite contributions_cons, length_app, IH. cbn [List.filter].
  destruct (positive (head_of net (candidate_url urljoin base_url c.1 c.2))) eqn:Hpos.
  - destruct (outcome_positive urljoin net base_url c Hpos) as [[r Hr] | [e He]];
      [now rewrite Hr | congruence].
  - now rewrite (outcome_negative urljoin net base_url c
                   (outcome_ok_joined urljoin net base_url c o Ho) Hpos).
Qed.

End Keys.

Lemma grid_NoDup : NoDup grid.
Proof. apply (bool_decide_unpack _). vm_compute. reflexivity. Qed.

(** X6: the catalog [get_available_files] returns is strictly ascending in
    (year, month): no month appears twice, and two of its records with
    the same year and month are the same record. *)
Theorem catalog_strictly_sorted (urljoin : url_joiner) (net : network)
    (base_url : string) (w : world) (catalog : Catalog) :
  (get_available_files urljoin net base_url w).1 = Ok catalog ->
  Sorted key_lt catalog
  ∧ (∀ r1 r2, r1 ∈ catalog -> r2 ∈ catalog ->
              year r1 = year r2 -> month r1 = month r2 -> r1 = r2).
Proof.
  unfold get_available_files. intros Hrun.
  destruct (discover urljoin net base_url grid w) as [res w'] eqn:Hpair.
  cbn [fst] in Hrun. subst res. apply discover_ok in Hpair as [-> _].
  split.
  - apply StronglySorted_Sorted, strictly_sorted.
    + apply Sorted_StronglySorted; [apply _ | apply sort_by_key_sorted].
    + apply catalog_keys_distinct, grid_NoDup.
  - intros r1 r2 H1 H2 Hy Hm. rewrite elem_of_sort_by_key in H1, H2.
    apply (same_key_same_record urljoin net base_url grid r1 r2 H1 H2).
    unfold key_of. now rewrite Hy, Hm.
Qed.

Lemma catalog_strictly_sorted_witness : Sorted key_lt [jan2020; mar2020].
Proof.
  apply (catalog_strictly_sorted urljoin_dir store base empty_world [jan2020; mar2020]).
  vm_compute. reflexivity.
Defined.

(** X7: the catalog [get_available_files] returns has one record for each
    pair of the grid whose probe was positive, so at most 144. *)
Theorem catalog_count (urljoin : url_joiner) (net : network)
    (base_url : string) (w : world) (catalog : Catalog) :
  (get_available_files urljoin net base_url w).1 = Ok catalog ->
  length catalog
  = length (List.filter
              (λ c, positive (head_of net (candidate_url urljoin base_url c.1 c.2))) grid)
  ∧ (length catalog <= 144)%nat.
Proof.
  unfold get_available_files. intros Hrun.
  destruct (discover urljoin net base_url grid w) as [res w'] eqn:Hpair.
  cbn [fst] in Hrun. subst res. apply discover_ok in Hpair as [-> Hall].
  assert (Hlen : length (sort_by_key (contributions urljoin net base_url grid))
                 = length (List.filter
                             (λ c, positive (head_of net
                                               (candidate_url urljoin base_url c.1 c.2)))
                             grid)).
  { rewrite (Permutation_length (sort_by_key_perm _)). now apply contributions_length. }
  split; [exact Hlen|].
  rewrite Hlen, <- grid_length. apply List.filter_length_le.
Qed.

Lemma catalog_count_witness :
  length [jan2020; mar2020]
  = length (List.filter
              (λ c, positive (head_of store (candidate_url urljoin_dir base c.1 c.2))) grid).
Proof.
  apply (catalog_count urljoin_dir store base empty_world [jan2020; mar2020]).
  vm_compute. reflexivity.
Defined.

(** *** The declared size *)

Lemma outcome_error (urljoin : url_joiner) (net : network)
    (base_url : string) (c : Z * Z) (e : exn) :
  probe_outcome urljoin net base_url c = Raise e -> builder_error e.
Proof.
  destruct c as [y m]. unfold probe_outcome, call_urljoin, builder_error.
  destruct (join_error urljoin base_url _) as [msg|]; cbn [rbind].
  { intros [= <-]. eauto. }
  destruct (head_of net _) as [|status header]; [discriminate|].
  destruct (status =? 200); [|discriminate].
  destruct (declared_size header) as [sz|e'] eqn:Hsz; cbn [rbind].
  - destruct (size_in_mb sz) as [mb|e''] eqn:Hmb; cbn [rbind]; [discriminate|].
    intros [= <-]. right. now apply (size_in_mb_error sz).
  - intros [= <-]. left. unfold declared_size in Hsz.
    destruct (isdigit _); [|discriminate]. now apply int_error_class in Hsz.
Qed.

(** X8: when some candidate answers 200 with a [Content-Length] that
    [isdigit] accepts and that [int] refuses, or that is too large to be
    divided into a [float], the builder returns no catalog: the error
    is a [ValueError] or an [OverflowError], not a [RequestException],
    and leaves [get_available_files]. *)
Theorem builder_rejects_odd_length (urljoin : url_joiner)
    (net : network) (base_url : string) (w : world) (y m : Z) (s : string) :
  (y, m) ∈ grid ->
  head_of net (candidate_url urljoin base_url y m) = HeadResponse 200 (Some s) ->
  isdigit s = true ->
  ((∃ e, Py.int s = Raise e) ∨ (∃ sz, Py.int s = Ok sz ∧ quotient_fits sz 20 = false)) ->
  ∃ e, (get_available_files urljoin net base_url w).1 = Raise e
       ∧ ((∃ msg, e = ValueError msg) ∨ e = OverflowError)
       ∧ is_RequestException e = false.
Proof.
  intros Hin Hhead Hdigit Hbad. unfold get_available_files.
  assert (Hout : ∃ e, probe_outcome urljoin net base_url (y, m) = Raise e).
  { unfold probe_outcome, call_urljoin.
    destruct (join_error urljoin base_url _); cbn [rbind]; [eauto|].
    fold (candidate_url urljoin base_url y m). rewrite Hhead, Z.eqb_refl.
    unfold declared_size, default, from_option, id. rewrite Hdigit.
    destruct Hbad as [[e ->] | (sz & -> & Hfit)]; cbn [rbind]; [eauto|].
    unfold size_in_mb. rewrite Hfit. cbn [rbind]. eauto. }
  destruct Hout as [e0 Hout].
  destruct (discover_run urljoin net base_url grid w)
    as [(w1 & _ & Hall & _) | (c & e & w1 & _ & He & ->)].
  - rewrite Forall_forall in Hall. destruct (Hall _ Hin) as [o Ho]. congruence.
  - exists e. split; [reflexivity|].
    apply outcome_error in He. split; [exact He|].
    destruct He as [[msg ->] | ->]; reflexivity.
Qed.

Lemma builder_rejects_odd_length_witness :
  (∃ e, (get_available_files urljoin_dir odd_store base empty_world).1 = Raise e
        ∧ ((∃ msg, e = ValueError msg) ∨ e = OverflowError)
        ∧ is_RequestException e = false)
  ∧ (∃ e, (get_available_files urljoin_dir vast_store base empty_world).1 = Raise e
          ∧ ((∃ msg, e = ValueError msg) ∨ e = OverflowError)
          ∧ is_RequestException e = false).
Proof.
  split.
  - apply (builder_rejects_odd_length urljoin_dir odd_store base empty_world
             2020 3 superscript_two).
    + apply grid_spec. lia.
    + vm_compute. reflexivity.
    + vm_compute. reflexivity.
    + left. eexists. vm_compute. reflexivity.
  - apply (builder_rejects_odd_length urljoin_dir vast_store base empty_world
             2020 3 vast_length).
    + apply grid_spec. lia.
    + vm_compute. reflexivity.
    + vm_compute. reflexivity.
    + right. exists (10 ^ 400). split; vm_compute; reflexivity.
Defined.

Lemma digit_char_plain (c : ascii) :
  is_digit_char c = true ->
  is_space_char c = false ∧ c ≠ "-"%char ∧ c ≠ "+"%char.
Proof.
  destruct c as [[] [] [] [] [] [] [] []]; vm_compute; intros H;
    try discriminate H; repeat split; discriminate.
Qed.

Lemma split_sign_digit (c : ascii) (s : string) :
  is_digit_char c = true -> split_sign (String c s) = (false, String c s).
Proof.
  intros Hc. apply digit_char_plain in Hc as (_ & Hminus & Hplus).
  destruct c as [[] [] [] [] [] [] [] []]; try reflexivity; congruence.
Qed.

Lemma scan_digits_nonneg (s : string) :
  ∀ acc digits after value n rest,
    0 <= acc -> scan_digits s acc digits after = Scanned value n rest -> 0 <= value.
Proof.
  induction s as [|c s IH]; intros acc digits after value n rest Hacc; cbn [scan_digits].
  - destruct after; [|discriminate]. now intros [= <- _ _].
  - destruct (is_decimal_char c) eqn:Hc.
    + apply IH. unfold is_decimal_char in Hc. unfold digit_value.
      apply andb_true_iff in Hc as [Hlow%N.leb_le _]. lia.
    + destruct (N_of_ascii c =? 95)%N.
      * destruct after; [now apply IH | discriminate].
      * destruct after; [|discriminate]. now intros [= <- _ _].
Qed.

Lemma declared_size_nonneg (header : option string) (sz : Z) :
  declared_size header = Ok sz -> 0 <= sz.
Proof.
  unfold declared_size, Py.int.
  destruct (isdigit (default "0"%string header)) eqn:Hdigit; [|intros [= <-]; lia].
  destruct (default "0"%string header) as [|c s]; [discriminate|].
  cbn [isdigit all_chars] in Hdigit. apply andb_true_iff in Hdigit as [Hc _].
  cbn [lstrip]. rewrite (proj1 (digit_char_plain c Hc)), (split_sign_digit c s Hc).
  destruct (scan_digits _ 0 0 false) as [|value n rest] eqn:Hscan; [discriminate|].
  destruct (_ <? _)%nat; [discriminate|].
  destruct (all_chars _ _); [|discriminate].
  intros [= <-].
  exact (scan_digits_nonneg _ 0 0%nat false value n rest (Z.le_refl 0) Hscan).
Qed.

Lemma outcome_size (urljoin : url_joiner) (net : network)
    (base_url : string) (c : Z * Z) (r : FileRecord) :
  probe_outcome urljoin net base_url c = Ok (Some r) ->
  ∃ header, head_of net (url r) = HeadResponse 200 header
            ∧ declared_size header = Ok (size r).
Proof.
  destruct c as [y m]. unfold probe_outcome, call_urljoin.
  destruct (join_error urljoin base_url _); cbn [rbind]; [discriminate|].
  fold (candidate_url urljoin base_url y m).
  destruct (head_of net (candidate_url urljoin base_url y m))
    as [|status header] eqn:Hhead; [discriminate|].
  destruct (status =? 200) eqn:Hstatus; [|discriminate].
  destruct (declared_size header) as [sz|e] eqn:Hsz; cbn [rbind]; [|discriminate].
  destruct (size_in_mb sz); cbn [rbind]; [|discriminate].
  intros [= <-]. cbn [url size found_record]. apply Z.eqb_eq in Hstatus. subst status.
  eauto.
Qed.

(** X9: in a catalog the builder returns every size is at least 0, and it
    is 0 for a file whose probe carried no [Content-Length] or one that
    is not made of digits. *)
Theorem catalog_sizes (urljoin : url_joiner) (net : network)
    (base_url : string) (candidates : list (Z * Z)) (w : world) (catalog : Catalog)
    (r : FileRecord) :
  (discover urljoin net base_url candidates w).1 = Ok catalog ->
  r ∈ catalog ->
  0 <= size r
  ∧ (∀ status, head_of net (url r) = HeadResponse status None -> size r = 0)
  ∧ (∀ status s, head_of net (url r) = HeadResponse status (Some s) ->
                 isdigit s = false -> size r = 0).
Proof.
  intros Hrun Hr.
  destruct (discover urljoin net base_url candidates w) as [res w'] eqn:Hpair.
  cbn [fst] in Hrun. subst res. apply discover_ok in Hpair as [-> _].
  apply elem_of_sort_by_key, elem_of_contributions in Hr as (c & _ & Hout).
  apply outcome_size in Hout as (header & Hhead & Hsz).
  split; [now apply (declared_size_nonneg header)|].
  split.
  - intros status Hnone. rewrite Hhead in Hnone. injection Hnone as _ ->.
    change (declared_size None) with (@Ok Z 0) in Hsz. congruence.
  - intros status s Hsome Hs. rewrite Hhead in Hsome. injection Hsome as _ ->.
    unfold declared_size, default, from_option, id in Hsz. rewrite Hs in Hsz. congruence.
Qed.

Lemma catalog_sizes_witness : 0 <= size jan2020 ∧ size mar2020 = 0.
Proof.
  assert (Hrun : (discover urljoin_dir store base grid empty_world).1
                 = Ok [jan2020; mar2020]) by (vm_compute; reflexivity).
  split.
  - apply (catalog_sizes urljoin_dir store base grid empty_world _ jan2020 Hrun).
    apply list_elem_of_here.
  - destruct (catalog_sizes urljoin_dir store base grid empty_world _ mar2020 Hrun)
      as (_ & Hnone & _).
    + apply list_elem_of_further, list_elem_of_here.
    + apply (Hnone 200). vm_compute. reflexivity.
Defined.

(** *** Names on disk *)

Lemma grid_names_distinct :
  forallb (λ c, forallb (λ c', implb (String.eqb (candidate_filename c.1 c.2)
                                                  (candidate_filename c'.1 c'.2))
                                     ((c.1 =? c'.1) && (c.2 =? c'.2)))
                        grid)
          grid = true.
Proof. vm_compute. reflexivity. Qed.

Lemma candidate_filename_inj (c c' : Z * Z) :
  c ∈ grid -> c' ∈ grid ->
  candidate_filename c.1 c.2 = candidate_filename c'.1 c'.2 -> c = c'.
Proof.
  intros Hc Hc' Hname. pose proof grid_names_distinct as Hall.
  rewrite forallb_forall in Hall. apply list_elem_of_In, Hall in Hc.
  rewrite forallb_forall in Hc. apply list_elem_of_In, Hc in Hc'.
  apply String.eqb_eq in Hname. rewrite Hname in Hc'. cbn [implb] in Hc'.
  apply andb_true_iff in Hc' as [H1%Z.eqb_eq H2%Z.eqb_eq].
  destruct c, c'. cbn in *. congruence.
Qed.

(** X10: in the catalog [get_available_files] returns the file names are
    pairwise different, so no two records are written to the same local
    path. *)
Theorem catalog_names_distinct (urljoin : url_joiner) (net : network)
    (base_url : string) (w : world) (catalog : Catalog) (output_dir : path)
    (r1 r2 : FileRecord) :
  (get_available_files urljoin net base_url w).1 = Ok catalog ->
  r1 ∈ catalog -> r2 ∈ catalog ->
  join output_dir (filename r1) = join output_dir (filename r2) -> r1 = r2.
Proof.
  unfold get_available_files. intros Hrun H1 H2 Hpath.
  destruct (discover urljoin net base_url grid w) as [res w'] eqn:Hpair.
  cbn [fst] in Hrun. subst res. apply discover_ok in Hpair as [-> _].
  apply elem_of_sort_by_key, elem_of_contributions in H1 as (c1 & Hc1 & Ho1).
  apply elem_of_sort_by_key, elem_of_contributions in H2 as (c2 & Hc2 & Ho2).
  unfold join in Hpath. apply app_inj_tail in Hpath as [_ Hname].
  assert (c1 = c2) as ->.
  { apply candidate_filename_inj; [exact Hc1 | exact Hc2 |].
    destruct c1 as [y1 m1], c2 as [y2 m2]. cbn [fst snd].
    apply outcome_record in Ho1 as (_ & _ & <- & _).
    apply outcome_record in Ho2 as (_ & _ & <- & _). exact Hname. }
  congruence.
Qed.

Lemma catalog_names_distinct_witness :
  join ["data"%string] (filename jan2020) ≠ join ["data"%string] (filename mar2020).
Proof.
  intros Hpath.
  assert (Heq : jan2020 = mar2020).
  { apply (catalog_names_distinct urljoin_dir store base empty_world
             [jan2020; mar2020] ["data"%string]).
    - vm_compute. reflexivity.
    - apply list_elem_of_here.
    - apply list_elem_of_further, list_elem_of_here.
    - exact Hpath. }
  discriminate Heq.
Defined.

End CatalogMore.

(** * Further properties of the download executor *)

Module DownloadMore.

Import Downloader Spec Fixtures Notions MonadProps DownloadProps Traffic.

Section WithRemote.

Variable net : network.

(** *** Requests *)

Lemma send_all (targets : list string) (w : world) :
  for_each (fun (_ : unit) target => send (GET target)) targets tt w
  = (Ok tt, mkWorld (fs w) (requests w ++ map GET targets) (stdout w)).
Proof.
  revert w. induction targets as [|target targets IH]; intros w.
  - cbn. rewrite app_nil_r. now destruct w.
  - rewrite for_each_cons. unfold send at 1. rewrite IH. cbn [fs requests stdout map].
    now rewrite <- app_assoc.
Qed.

(** A GET logs the request, then one request for each redirect, and ends
    as the store says. *)
Lemma session_get_run (url : string) (w : world) :
  session_get net url w
  = (match get_of net url with
     | GetFails => Raise RequestException
     | GetResponse r => Ok r
     end,
     mkWorld (fs w) (requests w ++ transfer_requests net url) (stdout w)).
Proof.
  unfold session_get, bind, send. rewrite send_all. cbn [fs requests stdout].
  unfold transfer_requests. rewrite <- app_assoc. cbn [app].
  now destruct (get_of net url).
Qed.

Lemma session_get_adds (url : string) :
  adds (transfer_requests net url) (session_get net url).
Proof.
  intros w. exists (transfer_requests net url). split; [reflexivity|].
  now rewrite session_get_run.
Qed.

Lemma progress_bar_silent (total : Z) : adds [] (progress_bar total).
Proof. unfold progress_bar. apply adds_when, adds_raise. Qed.

Lemma raise_for_status_silent (r : response) : adds [] (raise_for_status r).
Proof. unfold raise_for_status. apply adds_when, adds_raise. Qed.

Lemma write_chunks_silent (p : path) (r : response) : adds [] (write_chunks p r).
Proof.
  unfold write_chunks. apply adds_bind_silent.
  - replace (@nil request) with (chunks r ≫= λ _ : list Byte.byte, @nil request).
    + apply adds_for_each. intros [] chunk. apply adds_when, write_silent.
    + induction (chunks r) as [|c cs IH]; [reflexivity | exact IH].
  - intros _. apply adds_when, adds_raise.
Qed.

Lemma download_body_adds (url : string) (p : path) :
  adds (transfer_requests net url) (download_body net url p).
Proof.
  unfold download_body.
  apply adds_bind_silent; [apply makedirs_silent|]. intros _.
  rewrite <- (app_nil_r (transfer_requests net url)).
  apply adds_bind; [apply session_get_adds|]. intros r.
  apply adds_bind_silent; [apply raise_for_status_silent|]. intros _.
  apply adds_bind_silent; [apply adds_lift|]. intros total.
  apply adds_bind_silent; [apply open_wb_silent|]. intros _.
  apply adds_bind_silent; [apply progress_bar_silent|]. intros _.
  apply adds_bind_silent; [apply write_chunks_silent|]. intros _.
  apply adds_ret.
Qed.

Lemma download_cleanup_silent (url : string) (p : path) (e : exn) :
  adds [] (download_cleanup url p e).
Proof.
  unfold download_cleanup.
  apply adds_bind_silent; [apply adds_print|]. intros _.
  apply adds_bind_silent; [apply path_exists_silent|]. intros present.
  apply adds_bind_silent; [apply adds_when, remove_silent|]. intros _.
  apply adds_ret.
Qed.

Lemma download_file_adds (url : string) (p : path) :
  adds (transfer_requests net url) (download_file net url p).
Proof.
  unfold download_file. rewrite <- (app_nil_r (transfer_requests net url)).
  apply adds_try_except; [apply download_body_adds|].
  intros e. apply download_cleanup_silent.
Qed.

Lemma already_downloaded_silent (p : path) (file : FileRecord) :
  adds [] (already_downloaded p file).
Proof.
  unfold already_downloaded.
  apply adds_bind_silent; [apply path_exists_silent|]. intros present.
  destruct present; [|apply adds_ret].
  apply adds_bind_silent; [apply path_getsize_silent|]. intros sz. apply adds_ret.
Qed.

Lemma download_step_adds (output_dir : path) (n : Z) (file : FileRecord) :
  adds (transfer_requests net (url file)) (download_step net output_dir n file).
Proof.
  unfold download_step.
  apply adds_bind_silent; [apply already_downloaded_silent|]. intros skip.
  destruct skip.
  - apply (adds_weaken []); [apply sublist_nil_l|].
    apply adds_bind_silent; [apply adds_print|]. intros _. apply adds_ret.
  - apply adds_bind_silent; [apply adds_print|]. intros _.
    rewrite <- (app_nil_r (transfer_requests net (url file))).
    apply adds_bind; [apply download_file_adds|]. intros b. apply adds_ret.
Qed.

Lemma download_all_adds (output_dir : path) (files : list FileRecord) (n : Z) :
  adds (files ≫= λ file, transfer_requests net (url file))
       (download_all net output_dir files n).
Proof.
  unfold download_all.
  apply (adds_for_each (λ file, transfer_requests net (url file))).
  intros acc file. apply download_step_adds.
Qed.

Lemma direct_transfers (files : list FileRecord) :
  direct net ->
  (files ≫= λ file, transfer_requests net (url file)) = download_requests files.
Proof.
  intros Hdirect. unfold download_requests, transfer_requests.
  induction files as [|file files IH]; [reflexivity|].
  cbn [mbind list_bind map]. change (mbind ?f files) with (files ≫= f).
  now rewrite IH, Hdirect.
Qed.

(** *** The count *)

Lemma download_step_count (output_dir : path) (n n' : Z) (file : FileRecord)
    (w w' : world) :
  download_step net output_dir n file w = (Ok n', w') -> n' = n ∨ n' = n + 1.
Proof.
  unfold download_step, bind at 1.
  destruct (already_downloaded_returns (join output_dir (filename file)) file w)
    as [skip ->].
  destruct skip.
  - unfold bind, print, ret. intros [= <- _]. now right.
  - unfold bind, print, ret.
    destruct (download_file net (url file) _ _) as [[b|e] w1]; [|discriminate].
    intros [= <- _]. destruct b; auto.
Qed.

End WithRemote.

(** X11: the download loop sends nothing but GET requests, in the order of
    the list and whether it finishes or is stopped by an error: for a
    record at most once the GET of its URL, followed by the GETs of the
    URLs the store redirects that request to.  When the store redirects
    nothing this is at most one GET per record, for the record's URL. *)
Theorem download_loop_traffic (net : network) (output_dir : path)
    (files : list FileRecord) (n : Z) (w : world) :
  ∃ rs, rs `sublist_of` (files ≫= λ file, transfer_requests net (url file))
        ∧ requests (download_all net output_dir files n w).2 = requests w ++ rs
        ∧ (direct net -> rs `sublist_of` download_requests files).
Proof.
  destruct (download_all_adds net output_dir files n w) as (rs & Hrs & Hreq).
  exists rs. split; [exact Hrs|]. split; [exact Hreq|].
  intros Hdirect. now rewrite <- (direct_transfers net files Hdirect).
Qed.

Lemma download_loop_traffic_witness :
  requests (download_all moved_store ["data"%string] [jan2020; mar2020] 0 fresh_world).2
  = [GET (url jan2020); GET mirror_url; GET (url mar2020)]
  ∧ ∃ rs, rs `sublist_of` [GET (url jan2020); GET (url mar2020)]
          ∧ requests (download_all store ["data"%string] [jan2020; mar2020] 0
                        fresh_world).2 = rs.
Proof.
  split; [vm_compute; reflexivity|].
  destruct (download_loop_traffic store ["data"%string] [jan2020; mar2020] 0 fresh_world)
    as (rs & _ & Hreq & Hdirect).
  exists rs. split; [|exact Hreq].
  apply Hdirect. intros u. reflexivity.
Defined.

(** X12: when the download loop returns, the count it returns has grown by
    at least 0 and at most the number of records. *)
Theorem download_count_bounds (net : network) (output_dir : path)
    (files : list FileRecord) (n n' : Z) (w w' : world) :
  download_all net output_dir files n w = (Ok n', w') ->
  n <= n' <= n + Z.of_nat (length files).
Proof.
  unfold download_all. revert n w. induction files as [|file rest IH]; intros n w.
  - cbn. intros [= <- _]. lia.
  - rewrite for_each_cons.
    destruct (download_step net output_dir n file w) as [[n1|e] w1] eqn:Hstep;
      [|discriminate].
    intros Hrest. apply IH in Hrest. apply download_step_count in Hstep.
    cbn [length]. lia.
Qed.

Lemma download_count_bounds_witness :
  0 <= 1 <= 0 + Z.of_nat (length [jan2020; mar2020]).
Proof.
  apply (download_count_bounds store ["data"%string] [jan2020; mar2020] 0 1
           mirrored_world
           (download_all store ["data"%string] [jan2020; mar2020] 0 mirrored_world).2).
  vm_compute. reflexivity.
Defined.

(** *** Other files *)

Lemma open_wb_elsewhere (p : path) : preserves (same_at (λ q, q ≠ p)) (Os.open_wb p).
Proof.
  intros w. unfold Os.open_wb, bind, get_fs, put_fs, raise.
  destruct p as [|c p]; [reflexivity|].
  destruct (fs w !! (c :: p)) as [[content|st_size]|];
    try reflexivity;
    (destruct (Os.is_dir_node (Os.parent_node (fs w) (c :: p))); [|reflexivity]);
    cbn [snd fs]; apply same_at_insert; auto.
Qed.

Lemma write_elsewhere (p : path) (chunk : list Byte.byte) :
  preserves (same_at (λ q, q ≠ p)) (Os.write p chunk).
Proof.
  intros w. unfold Os.write, bind, get_fs, put_fs, raise.
  destruct (fs w !! p) as [[content|st_size]|]; try reflexivity.
  cbn [snd fs]. apply same_at_insert. auto.
Qed.

Lemma remove_elsewhere (p : path) : preserves (same_at (λ q, q ≠ p)) (Os.remove p).
Proof.
  intros w. unfold Os.remove, bind, get_fs, put_fs, raise.
  destruct (Os.node_at (fs w) p) as [[content|st_size]|]; try reflexivity.
  cbn [snd fs]. intros q Hq. now apply lookup_delete_ne.
Qed.

Lemma dirname_join (d : path) (name : string) : dirname (join d name) = d.
Proof. unfold dirname, join. apply removelast_last. Qed.

Section Elsewhere.

Variable net : network.

Lemma download_file_elsewhere (url : string) (p : path) :
  preserves (same_at (beside p)) (download_file net url p).
Proof.
  assert (Hp : ∀ {A} (c : M A),
             preserves (same_at (λ q, q ≠ p)) c -> preserves (same_at (beside p)) c).
  { intros A c. apply same_at_weaken. now intros q [_ Hq]. }
  unfold download_file. apply preserves_try_except; [apply _ | |].
  - unfold download_body.
    apply preserves_bind; [apply _ | |].
    { apply (same_at_weaken (λ q, length (rev (dirname p)) < length q)%nat);
        [|apply makedirs_rev_preserves].
      intros q [Hq _]. now rewrite length_rev. }
    intros _. apply preserves_bind; [apply _ | apply session_get_preserves; apply _ |].
    intros r. apply preserves_bind; [apply _ | apply raise_for_status_preserves; apply _ |].
    intros _. apply preserves_bind; [apply _ | apply preserves_lift; apply _ |].
    intros total. apply preserves_bind; [apply _ | apply Hp, open_wb_elsewhere |].
    intros _. apply preserves_bind; [apply _ | apply progress_bar_preserves; apply _ |].
    intros _. apply preserves_bind; [apply _ | | intros _; apply preserves_ret; apply _].
    unfold write_chunks. apply preserves_bind; [apply _ | |].
    + apply preserves_for_each; [apply _|]. intros [] chunk.
      apply preserves_when; [apply _ | apply Hp, write_elsewhere].
    + intros _. apply preserves_when; [apply _|]. apply preserves_raise; apply _.
  - intros e. unfold download_cleanup.
    apply preserves_bind; [apply _ | apply preserves_print; apply _ |].
    intros _. apply preserves_bind; [apply _ | apply path_exists_preserves; apply _ |].
    intros present. apply preserves_bind; [apply _ | | intros _; apply preserves_ret; apply _].
    apply preserves_when; [apply _ | apply Hp, remove_elsewhere].
Qed.

Lemma download_step_elsewhere (output_dir : path) (n : Z) (file : FileRecord) :
  preserves (same_at (beside (join output_dir (filename file))))
            (download_step net output_dir n file).
Proof.
  unfold download_step.
  apply preserves_bind; [apply _ | |].
  { unfold already_downloaded.
    apply preserves_bind; [apply _ | apply path_exists_preserves; apply _ |].
    intros present. destruct present; [|apply preserves_ret; apply _].
    apply preserves_bind; [apply _ | | intros sz; apply preserves_ret; apply _].
    intros w. unfold Os.path_getsize, bind, get_fs.
    destruct (Os.node_at (fs w) _) as [[?|?]|]; reflexivity. }
  intros skip. destruct skip.
  - apply preserves_bind; [apply _ | apply preserves_print; apply _ |].
    intros _. apply preserves_ret; apply _.
  - apply preserves_bind; [apply _ | apply preserves_print; apply _ |].
    intros _. apply preserves_bind; [apply _ | apply download_file_elsewhere |].
    intros b. apply preserves_ret; apply _.
Qed.

End Elsewhere.

(** X13: the download loop leaves alone every path in or below the output
    directory that is not the output path of one of its records, whether
    it finishes or is stopped by an error. *)
Theorem download_loop_frame (net : network) (output_dir : path)
    (files : list FileRecord) (n : Z) (w : world) (q : path) :
  (length output_dir < length q)%nat ->
  q ∉ output_paths output_dir files ->
  fs (download_all net output_dir files n w).2 !! q = fs w !! q.
Proof.
  intros Hlen Hq. unfold download_all.
  assert (Hloop : ∀ xs, xs ⊆ files -> ∀ n,
             preserves (same_at (λ q, (length output_dir < length q)%nat
                                      ∧ q ∉ output_paths output_dir files))
                       (for_each (download_step net output_dir) xs n)).
  { induction xs as [|file xs IH]; intros Hsub k; cbn [for_each].
    - apply preserves_ret; apply _.
    - apply preserves_bind; [apply _ | |].
      + apply (same_at_weaken (beside (join output_dir (filename file))));
          [|apply download_step_elsewhere].
        intros q' [Hlen' Hq']. split; [now rewrite dirname_join|].
        intros ->. apply Hq'. unfold output_paths. apply list_elem_of_fmap.
        exists file. split; [reflexivity|]. apply Hsub. apply list_elem_of_here.
      + intros k'. apply IH. intros x Hx. apply Hsub. now apply list_elem_of_further. }
  apply (Hloop files); [reflexivity|]. split; assumption.
Qed.

Lemma download_loop_frame_witness :
  fs (download_all store ["data"%string] [jan2020; mar2020] 0 stale_world).2
    !! ["data"%string; "notes.txt"%string]
  = Some (File [Byte.x68; Byte.x69]).
Proof.
  refine (eq_trans (download_loop_frame store ["data"%string] [jan2020; mar2020] 0
                      stale_world ["data"%string; "notes.txt"%string] _ _) _).
  - cbn. lia.
  - apply (bool_decide_unpack _). vm_compute. reflexivity.
  - vm_compute. reflexivity.
Defined.

(** *** A transfer that succeeds *)

Lemma silent_requests {A} (c : M A) (w : world) :
  adds [] c -> requests (c w).2 = requests w.
Proof.
  intros Hc. destruct (Hc w) as (rs & Hrs & Heq).
  apply sublist_nil_r in Hrs. subst rs. now rewrite app_nil_r in Heq.
Qed.

Lemma mkdir_ok (p : path) (w w1 : world) :
  Os.mkdir p w = (Ok tt, w1) -> fs w1 !! p = Some (Dir fresh_dir_size).
Proof.
  unfold Os.mkdir, bind, get_fs, put_fs, raise.
  destruct p as [|c p]; [discriminate|].
  destruct (fs w !! (c :: p)); [discriminate|].
  destruct (Os.is_dir_node _); [|discriminate].
  intros [= <-]. cbn [fs]. apply lookup_insert_eq.
Qed.

(** When [makedirs] returns, its argument is a directory. *)
Lemma makedirs_rev_ok_dir (rname : list string) (w w1 : world) :
  Os.makedirs_rev rname w = (Ok tt, w1) ->
  rev rname ≠ [] ∧ ∃ st_size, fs w1 !! rev rname = Some (Dir st_size).
Proof.
  destruct rname as [|tail rhead]; cbn [Os.makedirs_rev].
  - unfold Os.mkdir, bind, get_fs, raise. discriminate.
  - set (full := rev (tail :: rhead)).
    assert (Hfull : full ≠ []).
    { unfold full. cbn [rev]. now destruct (rev rhead). }
    unfold bind at 1.
    destruct (bind (Os.path_exists (rev rhead)) _ w) as [[[]|e] w2]; [|discriminate].
    unfold try_except.
    destruct (Os.mkdir full w2) as [[[]|e] w3] eqn:Hmk.
    + intros [= <-]. split; [exact Hfull|]. apply mkdir_ok in Hmk. eauto.
    + destruct (except_OSError e); [|discriminate].
      unfold Os.path_isdir, bind, get_fs, ret, raise.
      rewrite (node_at_nonempty _ _ Hfull).
      destruct (fs w3 !! full) as [[content|st_size]|] eqn:Hnode; cbn; try discriminate.
      intros [= <-]. split; [exact Hfull | eauto].
Qed.

Lemma makedirs_ok_dir (name : path) (w w1 : world) :
  Os.makedirs name w = (Ok tt, w1) ->
  name ≠ [] ∧ ∃ st_size, fs w1 !! name = Some (Dir st_size).
Proof.
  unfold Os.makedirs. intros H%makedirs_rev_ok_dir.
  now rewrite rev_involutive in H.
Qed.

Lemma write_loop (p : path) (chunks : list (list Byte.byte)) :
  ∀ (content : list Byte.byte) (w : world),
    fs w !! p = Some (File content) ->
    ∃ w', for_each (fun _ chunk =>
                      when (negb (bool_decide (chunk = []))) (Os.write p chunk))
                   chunks tt w = (Ok tt, w')
          ∧ fs w' = <[p := File (content ++ concat chunks)]> (fs w)
          ∧ requests w' = requests w ∧ stdout w' = stdout w.
Proof.
  induction chunks as [|chunk rest IH]; intros content w Hnode.
  - exists w. cbn. rewrite app_nil_r. split; [reflexivity|].
    split; [|auto]. symmetry. now apply insert_id.
  - rewrite for_each_cons. destruct (decide (chunk = [])) as [-> | Hchunk].
    + cbn [when negb]. rewrite bool_decide_eq_true_2 by reflexivity. cbn [negb when ret].
      unfold ret. apply (IH content w Hnode).
    + rewrite bool_decide_eq_false_2 by exact Hchunk. cbn [negb when].
      unfold Os.write, bind at 1, get_fs. rewrite Hnode. unfold put_fs.
      destruct (IH (content ++ chunk)
                  (mkWorld (<[p := File (content ++ chunk)]> (fs w)) (requests w) (stdout w)))
        as (w' & Hrun & Hfs & Hreq & Hout).
      { cbn [fs]. apply lookup_insert_eq. }
      exists w'. split; [exact Hrun|]. cbn [fs requests stdout] in *.
      rewrite Hfs, insert_insert_eq. cbn [concat]. rewrite app_assoc. auto.
Qed.

Lemma open_wb_ok (p : path) (w : world) :
  p ≠ [] ->
  Os.is_dir_node (fs w !! p) = false ->
  Os.is_dir_node (Os.parent_node (fs w) p) = true ->
  Os.open_wb p w = (Ok tt, mkWorld (<[p := File []]> (fs w)) (requests w) (stdout w)).
Proof.
  intros Hp Hnode Hpar. unfold Os.open_wb, bind, get_fs, put_fs, raise.
  destruct p as [|c p]; [contradiction|]. rewrite Hpar.
  destruct (fs w !! (c :: p)) as [[?|?]|]; try reflexivity. discriminate Hnode.
Qed.

Section Success.

Variable net : network.

Lemma download_body_success (url : string) (p : path) (w w1 : world) (r : response)
    (total : Z) :
  Os.makedirs (dirname p) w = (Ok tt, w1) ->
  ¬ is_directory w p ->
  get_of net url = GetResponse r ->
  (400 <=? status_code r) && (status_code r <? 600) = false ->
  total_size r = Ok total ->
  fits_float total = true ->
  complete r = true ->
  ∃ w', download_body net url p w = (Ok true, w')
        ∧ fs w' = <[p := File (concat (chunks r))]> (fs w1)
        ∧ requests w' = requests w ++ transfer_requests net url
        ∧ stdout w' = stdout w1.
Proof.
  intros Hmk Hdir Hget Hstatus Htotal Hfits Hcomplete.
  destruct (makedirs_ok_dir _ _ _ Hmk) as (Hparent & st_size & Hpdir).
  assert (Hp : p ≠ []) by (intros ->; now apply Hparent).
  pose proof (makedirs_dirname_preserves p Hp w p eq_refl) as Hsame.
  pose proof (silent_requests (Os.makedirs (dirname p)) w (makedirs_silent _)) as Hreq.
  rewrite Hmk in Hsame, Hreq. cbn [snd] in Hsame, Hreq.
  unfold download_body, bind at 1. rewrite Hmk.
  unfold bind at 1. rewrite session_get_run, Hget.
  unfold bind at 1, raise_for_status. rewrite Hstatus. cbn [when]. unfold ret at 1.
  unfold bind at 1, lift. rewrite Htotal.
  destruct p as [|c p]; [contradiction|].
  assert (Hnotdir : Os.is_dir_node (fs w1 !! (c :: p)) = false).
  { rewrite Hsame. unfold is_directory in Hdir. cbn [Os.node_at] in Hdir.
    now destruct (Os.is_dir_node (fs w !! (c :: p))). }
  assert (Hpar : Os.is_dir_node (Os.parent_node (fs w1) (c :: p)) = true).
  { unfold Os.parent_node. destruct (dirname (c :: p)); [contradiction|]. now rewrite Hpdir. }
  unfold bind at 1.
  rewrite (open_wb_ok (c :: p)
             (mkWorld (fs w1) (requests w1 ++ transfer_requests net url) (stdout w1))
             Hp Hnotdir Hpar).
  cbn [fs requests stdout].
  unfold bind at 1, progress_bar. rewrite Hfits. cbn [negb when]. unfold ret at 1.
  unfold write_chunks, bind.
  destruct (write_loop (c :: p) (chunks r) []
              (mkWorld (<[c :: p := File []]> (fs w1))
                 (requests w1 ++ transfer_requests net url) (stdout w1)))
    as (w' & Hrun & Hfs & Hreq' & Hout).
  { cbn [fs]. apply lookup_insert_eq. }
  rewrite Hrun, Hcomplete. cbn [negb when]. unfold ret.
  exists w'. split; [reflexivity|]. cbn [fs requests stdout] in *.
  rewrite Hfs, insert_insert_eq, Hreq', Hreq, Hout. auto.
Qed.

End Success.

(** X14: when the directory of the output path can be made, the output
    path is not a directory, the GET ends (after the redirects the store
    may send) with a response whose status is outside 400..599, whose
    [Content-Length] (if any) is an integer in the range of [float] and
    whose stream is not cut, [download_file] returns [True]; it has sent
    the GET of the URL and one GET for each redirect, nothing else, and
    the file at the output path holds the chunks of that response, one
    after the other, in place of whatever was there. *)
Theorem download_stores_body (net : network) (url : string) (p : path) (w w1 : world)
    (r : response) (total : Z) :
  Os.makedirs (dirname p) w = (Ok tt, w1) ->
  ¬ is_directory w p ->
  get_of net url = GetResponse r ->
  (status_code r < 400 ∨ 600 <= status_code r) ->
  total_size r = Ok total ->
  fits_float total = true ->
  complete r = true ->
  ∃ w', download_file net url p w = (Ok true, w')
        ∧ fs w' !! p = Some (File (concat (chunks r)))
        ∧ requests w' = requests w ++ GET url :: map GET (redirects_of net url).
Proof.
  intros Hmk Hdir Hget Hstatus Htotal Hfits Hcomplete.
  destruct (download_body_success net url p w w1 r total Hmk Hdir Hget)
    as (w' & Hrun & Hfs & Hreq & _); [|exact Htotal | exact Hfits | exact Hcomplete |].
  - apply andb_false_iff. rewrite Z.leb_gt, Z.ltb_ge. exact Hstatus.
  - exists w'. unfold download_file, try_except. rewrite Hrun.
    split; [reflexivity|]. split; [|exact Hreq].
    rewrite Hfs. apply lookup_insert_eq.
Qed.

Lemma download_stores_body_witness :
  ∃ w', download_file moved_store (url jan2020) (join ["data"%string] (filename jan2020))
          stale_world = (Ok true, w')
        ∧ fs w' !! join ["data"%string] (filename jan2020)
          = Some (File [Byte.x50; Byte.x4b; Byte.x03; Byte.x04])
        ∧ requests w' = [GET (url jan2020); GET mirror_url].
Proof.
  apply (download_stores_body moved_store (url jan2020)
           (join ["data"%string] (filename jan2020)) stale_world stale_world
           (mkResponse 200 (Some "4"%string) sample_body true) 4).
  - vm_compute. reflexivity.
  - vm_compute. discriminate.
  - vm_compute. reflexivity.
  - cbn. lia.
  - vm_compute. reflexivity.
  - vm_compute. reflexivity.
  - reflexivity.
Defined.

(** *** Running again *)

(** [makedirs] on a directory that is in place changes nothing. *)
Lemma makedirs_ready (output_dir : path) (w : world) :
  output_dir_ready (fs w) output_dir -> Os.makedirs output_dir w = (Ok tt, w).
Proof.
  intros (Hne & Hdir & Hparent). unfold Os.makedirs.
  assert (Hrev : output_dir = rev (rev output_dir)) by (symmetry; apply rev_involutive).
  destruct (rev output_dir) as [|tail rhead] eqn:Hr.
  - cbn in Hrev. contradiction.
  - cbn [Os.makedirs_rev]. rewrite <- Hrev.
    assert (Hhead : rev rhead = dirname output_dir).
    { rewrite Hrev. cbn [rev]. unfold dirname. now rewrite removelast_last. }
    rewrite Hhead.
    assert (Hskip : ∀ c : M unit,
               bind (Os.path_exists (dirname output_dir))
                    (fun head_exists =>
                       when (negb (bool_decide (dirname output_dir = []))
                             && negb head_exists) c) w = (Ok tt, w)).
    { intros c. unfold Os.path_exists, bind, get_fs, ret.
      destruct Hparent as [-> | Hsome]; [reflexivity|].
      destruct (dirname output_dir) as [|a d]; [reflexivity|]. cbn [Os.node_at].
      rewrite (bool_decide_eq_true_2 _ Hsome). now rewrite andb_false_r. }
    unfold bind at 1. rewrite Hskip.
    unfold try_except, Os.mkdir, Os.path_isdir, bind, get_fs, raise, ret.
    destruct output_dir as [|a d]; [contradiction|].
    destruct (fs w !! (a :: d)) as [[content|st_size]|] eqn:Hnode; try discriminate Hdir.
    cbn [except_OSError Os.node_at]. now rewrite Hnode.
Qed.

Lemma already_downloaded_absent (p : path) (file : FileRecord) (w : world) :
  absent w p -> already_downloaded p file w = (Ok false, w).
Proof.
  unfold absent, already_downloaded, Os.path_exists, bind, get_fs, ret.
  intros ->. reflexivity.
Qed.

Section Again.

Variable net : network.

(** X15: with the output directory in place and nothing at the output
    path, a record whose transfer succeeds and delivers exactly the
    declared number of bytes is fetched (with the GET of its URL and one
    GET for each redirect the store sends) and counted, and the same
    step run again on the result skips it: nothing is sent and no file
    changes. *)
Theorem rerun_skips (output_dir : path) (file : FileRecord) (n : Z) (w : world)
    (r : response) (total : Z) :
  output_dir_ready (fs w) output_dir ->
  absent w (join output_dir (filename file)) ->
  get_of net (url file) = GetResponse r ->
  (status_code r < 400 ∨ 600 <= status_code r) ->
  total_size r = Ok total ->
  fits_float total = true ->
  complete r = true ->
  Z.of_nat (length (concat (chunks r))) = size file ->
  ∃ w2 w3,
    download_step net output_dir n file w = (Ok (n + 1), w2)
    ∧ requests w2
      = requests w ++ GET (url file) :: map GET (redirects_of net (url file))
    ∧ download_step net output_dir (n + 1) file w2 = (Ok (n + 1 + 1), w3)
    ∧ requests w3 = requests w2
    ∧ fs w3 = fs w2.
Proof.
  intros Hready Habsent Hget Hstatus Htotal Hfits Hcomplete Hsize.
  set (p := join output_dir (filename file)) in *.
  set (w' := printed (Downloading (filename file) (size_mb file)) w).
  assert (Hmk : Os.makedirs (dirname p) w' = (Ok tt, w')).
  { unfold p. rewrite dirname_join. now apply makedirs_ready. }
  assert (Hdir : ¬ is_directory w' p).
  { unfold is_directory, absent in *. cbn [fs w' printed]. now rewrite Habsent. }
  destruct (download_body_success net (url file) p w' w' r total Hmk Hdir Hget)
    as (w2 & Hrun & Hfs & Hreq & _); [|exact Htotal | exact Hfits | exact Hcomplete |].
  { apply andb_false_iff. rewrite Z.leb_gt, Z.ltb_ge. exact Hstatus. }
  assert (Hstep : download_step net output_dir n file w = (Ok (n + 1), w2)).
  { unfold download_step. fold p. unfold bind at 1.
    rewrite (already_downloaded_absent p file w Habsent).
    unfold bind at 1, print. fold (printed (Downloading (filename file) (size_mb file)) w).
    fold w'. unfold bind, download_file, try_except. rewrite Hrun. reflexivity. }
  exists w2, (printed (Skipping (filename file)) w2).
  split; [exact Hstep|]. split; [exact Hreq|].
  split; [|split; reflexivity].
  apply (download_step_skips net output_dir (n + 1) file w2 (concat (chunks r))).
  - fold p. rewrite Hfs. apply lookup_insert_eq.
  - exact Hsize.
Qed.

Lemma download_body_fails (url : string) (p : path) (w : world) :
  get_of net url = GetFails
  ∨ (∃ r, get_of net url = GetResponse r ∧ 400 <= status_code r < 600) ->
  ∃ e w1, download_body net url p w = (Raise e, w1).
Proof.
  intros Hfail. unfold download_body, bind at 1.
  destruct (Os.makedirs (dirname p) w) as [[[]|e] w1]; [|eauto].
  unfold bind at 1. rewrite session_get_run.
  destruct Hfail as [-> | (r & -> & Hlow & Hhigh)]; [eauto|].
  unfold bind, raise_for_status.
  apply Z.leb_le in Hlow. apply Z.ltb_lt in Hhigh. rewrite Hlow, Hhigh.
  cbn [andb when]. unfold raise. eauto.
Qed.

(** X16: when the file at the output path has a length other than the
    record's size, the step requests the file again; if that request
    fails, or is answered with a status from 400 to 599, the step still
    returns, counts nothing, and the file that was there is deleted. *)
Theorem failed_refresh_deletes (output_dir : path) (file : FileRecord) (n : Z)
    (w : world) (content : list Byte.byte) :
  fs w !! join output_dir (filename file) = Some (File content) ->
  Z.of_nat (length content) ≠ size file ->
  get_of net (url file) = GetFails
  ∨ (∃ r, get_of net (url file) = GetResponse r ∧ 400 <= status_code r < 600) ->
  ∃ w', download_step net output_dir n file w = (Ok n, w')
        ∧ absent w' (join output_dir (filename file)).
Proof.
  intros Hnode Hsize Hfail.
  set (p := join output_dir (filename file)) in *.
  set (w1 := printed (Downloading (filename file) (size_mb file)) w).
  destruct (download_body_fails (url file) p w1 Hfail) as (e & w2 & Hbody).
  pose proof (download_body_preserves net (url file) p w1) as Hkept.
  rewrite Hbody in Hkept. cbn [snd] in Hkept.
  destruct (download_cleanup_run (url file) p e w2) as (w3 & Hclean & Habsent & _).
  { unfold is_directory. rewrite Hkept; [discriminate|].
    pose proof Hnode as Hn. unfold p in Hn |- *. unfold w1. cbn [fs printed].
    now rewrite node_at_join, Hn. }
  exists w3. split; [|exact Habsent].
  unfold download_step. fold p. unfold bind at 1.
  rewrite (already_downloaded_file p file w content (join_nonempty _ _) Hnode).
  apply Z.eqb_neq in Hsize. rewrite Hsize.
  unfold bind at 1, print. fold (printed (Downloading (filename file) (size_mb file)) w).
  fold w1. unfold bind, download_file, try_except. rewrite Hbody.
  cbn [except_Exception]. rewrite Hclean. reflexivity.
Qed.

End Again.

Lemma rerun_skips_witness :
  ∃ w2 w3,
    download_step moved_store ["data"%string] 0 jan2020 fresh_world = (Ok 1, w2)
    ∧ requests w2 = [GET (url jan2020); GET mirror_url]
    ∧ download_step moved_store ["data"%string] 1 jan2020 w2 = (Ok 2, w3)
    ∧ requests w3 = requests w2
    ∧ fs w3 = fs w2.
Proof.
  apply (rerun_skips moved_store ["data"%string] jan2020 0 fresh_world
           (mkResponse 200 (Some "4"%string) sample_body true) 4).
  - split; [discriminate|]. split; [vm_compute; reflexivity | left; reflexivity].
  - vm_compute. reflexivity.
  - vm_compute. reflexivity.
  - cbn. lia.
  - vm_compute. reflexivity.
  - vm_compute. reflexivity.
  - reflexivity.
  - reflexivity.
Defined.

Lemma failed_refresh_deletes_witness :
  ∃ w', download_step silent_store ["data"%string] 0 jan2020 stale_world = (Ok 0, w')
        ∧ absent w' (join ["data"%string] (filename jan2020)).
Proof.
  apply (failed_refresh_deletes silent_store ["data"%string] jan2020 0 stale_world
           [Byte.x00]).
  - vm_compute. reflexivity.
  - vm_compute. discriminate.
  - left. reflexivity.
Defined.


(** *** Odd output paths *)

Lemma already_downloaded_directory (p : path) (file : FileRecord) (w : world)
    (st_size : Z) :
  p ≠ [] ->
  fs w !! p = Some (Dir st_size) ->
  already_downloaded p file w = (Ok (st_size =? size file), w).
Proof.
  intros Hp Hnode.
  unfold already_downloaded, Os.path_exists, Os.path_getsize, bind, get_fs, ret.
  rewrite (node_at_nonempty _ _ Hp), Hnode. cbn.
  rewrite (node_at_nonempty _ _ Hp), Hnode. reflexivity.
Qed.

(** X17: a directory at a record's output path is taken for the finished
    download when the size the system reports for it equals the record's
    size (nothing is sent, the count grows); with any other size the
    loop stops there with [IsADirectoryError], having sent at most the
    requests of that one transfer, and the records after it are not
    processed. *)
Theorem directory_at_output_path (net : network) (output_dir : path)
    (file : FileRecord) (rest : list FileRecord) (n : Z) (w : world) (st_size : Z) :
  fs w !! join output_dir (filename file) = Some (Dir st_size) ->
  (st_size = size file ->
   download_step net output_dir n file w
   = (Ok (n + 1), printed (Skipping (filename file)) w))
  ∧ (st_size ≠ size file ->
     ∃ w' rs, download_all net output_dir (file :: rest) n w
               = (Raise IsADirectoryError, w')
              ∧ rs `sublist_of` GET (url file) :: map GET (redirects_of net (url file))
              ∧ requests w' = requests w ++ rs).
Proof.
  intros Hnode.
  pose proof (already_downloaded_directory _ file w st_size (join_nonempty _ _) Hnode)
    as Hcheck.
  split.
  - intros Hsize. unfold download_step, bind at 1. rewrite Hcheck.
    apply Z.eqb_eq in Hsize. rewrite Hsize. reflexivity.
  - intros Hsize. unfold download_all. rewrite for_each_cons.
    unfold download_step, bind at 1. rewrite Hcheck.
    apply Z.eqb_neq in Hsize. rewrite Hsize.
    unfold bind at 1, print.
    set (w1 := mkWorld (fs w) (requests w) (stdout w ++ [_])).
    assert (Hdir : is_directory w1 (join output_dir (filename file))).
    { unfold is_directory, w1. cbn [fs]. now rewrite node_at_join, Hnode. }
    destruct (download_file_directory net (url file) _ w1 Hdir) as [w2 Hrun].
    destruct (download_file_adds net (url file) (join output_dir (filename file)) w1)
      as (rs & Hrs & Hreq).
    rewrite Hrun in Hreq. cbn [snd] in Hreq.
    unfold bind. rewrite Hrun. exists w2, rs. auto.
Qed.

Lemma directory_at_output_path_witness :
  ∃ w' rs, download_all moved_store ["data"%string] [jan2020; mar2020] 0 unpacked_world
           = (Raise IsADirectoryError, w')
           ∧ rs `sublist_of` [GET (url jan2020); GET mirror_url]
           ∧ requests w' = requests unpacked_world ++ rs.
Proof.
  destruct (directory_at_output_path moved_store ["data"%string] jan2020 [mar2020] 0
              unpacked_world fresh_dir_size) as [_ Hstop].
  - vm_compute. reflexivity.
  - apply Hstop. vm_compute. discriminate.
Defined.

(** X18: [download_file] with an output path of a single component (a bare
    file name) never succeeds: [os.makedirs] of the empty directory name
    raises before anything is sent, so [False] is returned, and any file
    that was at that path is deleted. *)
Theorem bare_file_name_fails (net : network) (url name : string) (w : world) :
  ¬ is_directory w [name] ->
  ∃ w', download_file net url [name] w = (Ok false, w')
        ∧ requests w' = requests w
        ∧ absent w' [name].
Proof.
  intros Hdir.
  assert (Hbody : download_body net url [name] w = (Raise FileNotFoundError, w)).
  { reflexivity. }
  destruct (download_cleanup_run url [name] FileNotFoundError w Hdir)
    as (w' & Hclean & Habsent & _ & Hreq).
  exists w'. unfold download_file, try_except. rewrite Hbody.
  cbn [except_Exception]. rewrite Hclean. auto.
Qed.

Lemma bare_file_name_fails_witness :
  ∃ w', download_file store (url jan2020) [filename jan2020] empty_world = (Ok false, w')
        ∧ requests w' = requests empty_world
        ∧ absent w' [filename jan2020].
Proof.
  apply (bare_file_name_fails store (url jan2020) (filename jan2020) empty_world).
  vm_compute. discriminate.
Defined.

End DownloadMore.

(** * Properties of [main] *)

Module MainProps.

Import Filters Downloader Spec Fixtures Notions MonadProps FilterProps CatalogProps
       DownloadProps Traffic FilterMore CatalogMore DownloadMore.

Lemma sends_of_adds {A} (P : request -> Prop) (l : list request) (c : M A) :
  Forall P l -> adds l c -> sends P c.
Proof.
  intros Hl Hc w. destruct (Hc w) as (rs & Hrs & Heq).
  exists rs. split; [|exact Heq].
  rewrite Forall_forall in Hl |- *. intros r Hr. apply Hl.
  eapply elem_of_sublist; eassumption.
Qed.

Lemma sends_silent {A} (P : request -> Prop) (c : M A) : adds [] c -> sends P c.
Proof. apply sends_of_adds. constructor. Qed.

(** Sequencing, with what is known of the value passed on. *)
Lemma sends_bind {A B} (P : request -> Prop) (Q : A -> Prop) (c : M A) (k : A -> M B) :
  (∀ w a w1, c w = (Ok a, w1) -> Q a) ->
  sends P c -> (∀ a, Q a -> sends P (k a)) -> sends P (bind c k).
Proof.
  intros Hq Hc Hk w. unfold bind. destruct (Hc w) as (rs1 & Hrs1 & Heq1).
  destruct (c w) as [[a|e] w1] eqn:Hrun; cbn [snd] in *.
  - destruct (Hk a (Hq w a w1 Hrun) w1) as (rs2 & Hrs2 & Heq2).
    exists (rs1 ++ rs2). split; [now apply Forall_app|].
    now rewrite Heq2, Heq1, app_assoc.
  - exists rs1. auto.
Qed.

Lemma sends_bind_any {A B} (P : request -> Prop) (c : M A) (k : A -> M B) :
  sends P c -> (∀ a, sends P (k a)) -> sends P (bind c k).
Proof.
  intros Hc Hk. apply (sends_bind P (λ _, True)); auto.
Qed.

Lemma apply_filters_silent (args : Args) (all_files : list FileRecord) :
  adds [] (apply_filters args all_files).
Proof.
  unfold apply_filters. apply adds_bind_silent.
  - destruct (truthy (arg_year args)); [|apply adds_ret].
    apply adds_bind_silent; [apply adds_print | intros _; apply adds_ret].
  - intros filtered. destruct (truthy (arg_year args) && truthy (arg_quarter args));
      [|apply adds_ret].
    apply adds_bind_silent; [apply adds_lift|]. intros kept.
    apply adds_bind_silent; [apply adds_print | intros _; apply adds_ret].
Qed.

Lemma quarter_filter_sublist (files kept : list FileRecord) (year_arg quarter_arg : option Z) :
  filter_files_by_quarter files year_arg quarter_arg = Ok kept -> kept `sublist_of` files.
Proof.
  unfold filter_files_by_quarter.
  destruct (negb (truthy year_arg) || negb (truthy quarter_arg)); [now intros [= <-]|].
  destruct (negb (arg_in quarter_arg [1; 2; 3; 4])); [discriminate|].
  apply comprehension_sublist.
Qed.

Lemma year_filter_sublist (files : list FileRecord) (year_arg : option Z) :
  filter_files_by_year files year_arg `sublist_of` files.
Proof.
  unfold filter_files_by_year. destruct (negb (truthy year_arg)); [reflexivity|].
  apply bool_filter_sublist.
Qed.

Lemma apply_filters_sublist (args : Args) (all_files filtered : list FileRecord)
    (w w' : world) :
  apply_filters args all_files w = (Ok filtered, w') -> filtered `sublist_of` all_files.
Proof.
  unfold apply_filters, bind, print, ret, lift.
  destruct (truthy (arg_year args)); cbn [andb].
  - destruct (truthy (arg_quarter args)).
    + destruct (filter_files_by_quarter _ _ _) as [kept|e] eqn:Hq; [|discriminate].
      intros [= <- _]. apply quarter_filter_sublist in Hq.
      etransitivity; [exact Hq | apply year_filter_sublist].
    + intros [= <- _]. apply year_filter_sublist.
  - intros [= <- _]. reflexivity.
Qed.

Lemma listing_silent (files : list FileRecord) :
  adds [] (for_each (fun (_ : unit) file => print (Listed (filename file) (size_mb file)))
                    files tt).
Proof.
  replace (@nil request) with (files ≫= λ _ : FileRecord, @nil request).
  - apply adds_for_each. intros [] file. apply adds_print.
  - induction files as [|f fs IH]; [reflexivity | exact IH].
Qed.

Section WithRemote.

Variable urljoin : url_joiner.
Variable net : network.

Lemma probe_requests_candidates (base_url : string) :
  Forall (candidate_request urljoin base_url) (probe_requests urljoin base_url grid).
Proof.
  unfold probe_requests. apply Forall_forall. intros req Hreq.
  apply list_elem_of_In, in_map_iff in Hreq as (c & <- & Hc).
  exists c. split; [now apply list_elem_of_In | now left].
Qed.

Lemma transfer_contacts (base_url : string) (c : Z * Z) :
  c ∈ grid ->
  Forall (contact urljoin net base_url)
         (transfer_requests net (candidate_url urljoin base_url c.1 c.2)).
Proof.
  intros Hc. unfold transfer_requests. constructor.
  - left. exists c. split; [exact Hc | now right].
  - apply Forall_forall. intros req (target & -> & Htarget)%list_elem_of_fmap.
    right. exists c, target. auto.
Qed.

Lemma contact_direct (base_url : string) (req : request) :
  direct net -> contact urljoin net base_url req ->
  candidate_request urljoin base_url req.
Proof.
  intros Hdirect [Hreq | (c & target & _ & Htarget & _)]; [exact Hreq|].
  rewrite Hdirect in Htarget. now apply elem_of_nil in Htarget.
Qed.

(** X19: every request [main] sends is a HEAD or a GET for one of the 144
    candidate names resolved against the base URL it was given, or a GET
    for a URL the store redirected the GET of such a candidate to;
    nothing else is ever contacted.  When the store redirects nothing,
    only the candidates are. *)
Theorem main_contacts_candidates_only (args : Args) (w : world) :
  ∃ rs, requests (main urljoin net args w).2 = requests w ++ rs
        ∧ Forall (contact urljoin net (arg_url args)) rs
        ∧ (direct net -> Forall (candidate_request urljoin (arg_url args)) rs).
Proof.
  set (P := contact urljoin net (arg_url args)).
  set (Q := λ files : list FileRecord,
              ∀ r, r ∈ files ->
                   ∃ c, c ∈ grid ∧ url r = candidate_url urljoin (arg_url args) c.1 c.2).
  assert (Hmain : sends P (main urljoin net args)).
  { unfold main.
    apply sends_bind_any; [apply sends_silent, makedirs_silent|]. intros _.
    apply (sends_bind P Q).
    - intros w0 all_files w1 Hrun r Hr.
      destruct (catalog_members _ _ _ _ _ _ _ r Hrun Hr) as (Hkey & Hurl & _).
      exists (year r, month r). split; [exact Hkey | exact Hurl].
    - apply (sends_of_adds P (probe_requests urljoin (arg_url args) grid));
        [|apply discover_adds].
      eapply Forall_impl; [apply probe_requests_candidates|].
      intros req Hreq. now left.
    - intros all_files Hall.
      destruct (bool_decide (all_files = [])); [apply sends_silent, adds_print|].
      apply sends_bind_any; [apply sends_silent, adds_print|]. intros _.
      apply (sends_bind P Q).
      + intros w0 filtered w1 Hrun r Hr. apply Hall.
        eapply elem_of_sublist; [exact Hr | eapply apply_filters_sublist, Hrun].
      + apply sends_silent, apply_filters_silent.
      + intros filtered Hfiltered.
        destruct (bool_decide (filtered = [])); [apply sends_silent, adds_print|].
        apply sends_bind_any; [apply sends_silent, adds_print|]. intros _.
        destruct (arg_list_only args).
        * apply sends_bind_any; [apply sends_silent, adds_print|]. intros _.
          apply sends_silent, listing_silent.
        * apply sends_bind_any; [apply sends_silent, adds_print|]. intros _.
          apply sends_bind_any.
          -- apply (sends_of_adds P
                      (filtered ≫= λ file, transfer_requests net (url file)));
               [|apply download_all_adds].
             apply Forall_forall. intros req (r & Hreq & Hr)%list_elem_of_bind.
             destruct (Hfiltered r Hr) as (c & Hc & Hurl). rewrite Hurl in Hreq.
             pose proof (transfer_contacts (arg_url args) c Hc) as Hall'.
             rewrite Forall_forall in Hall'. now apply Hall'.
          -- intros successful.
             apply sends_bind_any; [apply sends_silent, adds_print|]. intros _.
             apply sends_silent, adds_print. }
  destruct (Hmain w) as (rs & Hrs & Heq).
  exists rs. split; [exact Heq|]. split; [exact Hrs|].
  intros Hdirect. eapply Forall_impl; [exact Hrs|].
  intros req. now apply contact_direct.
Qed.

End WithRemote.

Lemma main_contacts_candidates_only_witness :
  requests (main urljoin_dir moved_store (mkArgs base ["data"%string] (Some 2020) (Some 1)
                                            false) empty_world).2
  = probe_requests urljoin_dir base grid
    ++ [GET (url jan2020); GET mirror_url; GET (url mar2020)]
  ∧ ∃ rs, requests (main urljoin_dir store (mkArgs base ["data"%string] None None false)
                      empty_world).2 = rs
          ∧ Forall (candidate_request urljoin_dir base) rs.
Proof.
  split; [vm_compute; reflexivity|].
  destruct (main_contacts_candidates_only urljoin_dir store
              (mkArgs base ["data"%string] None None false) empty_world)
    as (rs & Hreq & _ & Hdirect).
  exists rs. split; [exact Hreq|]. apply Hdirect. intros u. reflexivity.
Defined.

Lemma preserves_eq_elim {A} (c : M A) (w : world) :
  preserves eq c -> fs (c w).2 = fs w.
Proof. intros Hc. symmetry. apply Hc. Qed.

Lemma apply_filters_keeps_files (args : Args) (all_files : list FileRecord) :
  preserves eq (apply_filters args all_files).
Proof.
  unfold apply_filters. apply preserves_bind; [apply _ | |].
  - destruct (truthy (arg_year args)); [|apply preserves_ret; apply _].
    apply preserves_bind; [apply _ | apply preserves_print; apply _ |].
    intros _. apply preserves_ret; apply _.
  - intros filtered. destruct (truthy (arg_year args) && truthy (arg_quarter args));
      [|apply preserves_ret; apply _].
    apply preserves_bind; [apply _ | apply preserves_lift; apply _ |]. intros kept.
    apply preserves_bind; [apply _ | apply preserves_print; apply _ |].
    intros _. apply preserves_ret; apply _.
Qed.

Section ListOnly.

Variable urljoin : url_joiner.
Variable net : network.

(** X20: with [--list-only], [main] sends nothing but the HEAD requests
    of the probing and leaves the local files as [os.makedirs] of the
    output directory left them: nothing is downloaded, nothing deleted. *)
Theorem list_only_downloads_nothing (args : Args) (w : world) :
  arg_list_only args = true ->
  (∃ rs, rs `sublist_of` probe_requests urljoin (arg_url args) grid
         ∧ requests (main urljoin net args w).2 = requests w ++ rs)
  ∧ fs (main urljoin net args w).2 = fs (Os.makedirs (arg_output_dir args) w).2.
Proof.
  intros Hlist. split.
  - revert w. change (adds (probe_requests urljoin (arg_url args) grid)
                           (main urljoin net args)).
    unfold main. rewrite Hlist.
    apply adds_bind_silent; [apply makedirs_silent|]. intros _.
    rewrite <- (app_nil_r (probe_requests _ _ _)).
    apply adds_bind; [apply discover_adds|]. intros all_files.
    destruct (bool_decide (all_files = [])); [apply adds_print|].
    apply adds_bind_silent; [apply adds_print|]. intros _.
    apply adds_bind_silent; [apply apply_filters_silent|]. intros filtered.
    destruct (bool_decide (filtered = [])); [apply adds_print|].
    apply adds_bind_silent; [apply adds_print|]. intros _.
    apply adds_bind_silent; [apply adds_print|]. intros _.
    apply listing_silent.
  - unfold main. rewrite Hlist. unfold bind at 1.
    destruct (Os.makedirs (arg_output_dir args) w) as [[[]|e] w1]; cbn [snd];
      [|reflexivity].
    apply preserves_eq_elim.
    apply preserves_bind; [apply _ | |].
    { intros w0. symmetry. apply discover_keeps_files. }
    intros all_files.
    destruct (bool_decide (all_files = [])); [apply preserves_print; apply _|].
    apply preserves_bind; [apply _ | apply preserves_print; apply _ |]. intros _.
    apply preserves_bind; [apply _ | apply apply_filters_keeps_files |]. intros filtered.
    destruct (bool_decide (filtered = [])); [apply preserves_print; apply _|].
    apply preserves_bind; [apply _ | apply preserves_print; apply _ |]. intros _.
    apply preserves_bind; [apply _ | apply preserves_print; apply _ |]. intros _.
    apply preserves_for_each; [apply _|]. intros [] file. apply preserves_print; apply _.
Qed.



(** X25: when [urljoin] refuses the base URL, [main] stops with that
    [ValueError] at the first candidate, right after it printed that it
    is discovering: the output directory has been made, but no request
    is sent and nothing is listed or downloaded. *)
Theorem malformed_base_aborts (args : Args) (w w1 : world) (msg : string) :
  Os.makedirs (arg_output_dir args) w = (Ok tt, w1) ->
  join_error urljoin (arg_url args) (candidate_filename 2013 1) = Some msg ->
  main urljoin net args w = (Raise (ValueError msg), printed Discovering w1)
  ∧ requests w1 = requests w.
Proof.
  intros Hmk Hjoin. split.
  - unfold main, bind at 1. rewrite Hmk.
    unfold get_available_files, discover, bind at 1.
    unfold bind at 1, print at 1. fold (printed Discovering w1).
    change grid with ((2013, 1) :: tl grid).
    unfold bind at 1. now rewrite for_each_cons, probe_run, Hjoin.
  - pose proof (silent_requests (Os.makedirs (arg_output_dir args)) w
                  (makedirs_silent _)) as Hreq.
    now rewrite Hmk in Hreq.
Qed.

End ListOnly.

Lemma list_only_downloads_nothing_witness :
  fs (main urljoin_dir store (mkArgs base ["data"%string] None None true) empty_world).2
  = fs (Os.makedirs ["data"%string] empty_world).2.
Proof.
  apply (list_only_downloads_nothing urljoin_dir store
           (mkArgs base ["data"%string] None None true) empty_world).
  reflexivity.
Defined.


Lemma malformed_base_aborts_witness :
  main urljoin_strict store (mkArgs broken_base ["data"%string] None None false)
    empty_world
  = (Raise (ValueError "Invalid IPv6 URL"), printed Discovering fresh_world)
  ∧ requests fresh_world = requests empty_world.
Proof.
  apply (malformed_base_aborts urljoin_strict store
           (mkArgs broken_base ["data"%string] None None false) empty_world fresh_world).
  - vm_compute. reflexivity.
  - vm_compute. reflexivity.
Defined.

(** *** The catalog and its selections *)

(** X22: probing the pairs of the grid in another order gives the catalog
    [get_available_files] gives: the final sort makes the result
    independent of the order of the loops. *)
Theorem probing_order_irrelevant (urljoin : url_joiner) (net : network)
    (base_url : string) (candidates : list (Z * Z)) (w1 w2 : world)
    (catalog1 catalog2 : Catalog) :
  candidates ≡ₚ grid ->
  (discover urljoin net base_url candidates w1).1 = Ok catalog1 ->
  (get_available_files urljoin net base_url w2).1 = Ok catalog2 ->
  catalog1 = catalog2.
Proof.
  unfold get_available_files. intros Hperm H1 H2.
  destruct (discover urljoin net base_url candidates w1) as [r1 w1'] eqn:Hrun1.
  destruct (discover urljoin net base_url grid w2) as [r2 w2'] eqn:Hrun2.
  cbn [fst] in H1, H2. subst r1 r2.
  exact (discover_order_irrelevant urljoin net base_url candidates grid
           w1 w1' w2 w2' catalog1 catalog2 Hperm Hrun1 Hrun2).
Qed.

Lemma probing_order_irrelevant_witness :
  (discover urljoin_dir store base (rev grid) empty_world).1 = Ok [jan2020; mar2020].
Proof.
  assert (H1 : ∃ c, (discover urljoin_dir store base (rev grid) empty_world).1 = Ok c).
  { eexists. vm_compute. reflexivity. }
  destruct H1 as [c H1]. rewrite H1. f_equal.
  apply (probing_order_irrelevant urljoin_dir store base (rev grid)
           empty_world empty_world c [jan2020; mar2020]).
  - symmetry. apply Permutation_rev.
  - exact H1.
  - vm_compute. reflexivity.
Defined.

(** X23: every record of a catalog [get_available_files] returns has a year
    from 2013 to 2024 and a month from 1 to 12, is named by the pattern
    after its year and month, and has for URL that name resolved against
    the base URL. *)
Theorem catalog_records (urljoin : url_joiner) (net : network)
    (base_url : string) (w : world) (catalog : Catalog) (r : FileRecord) :
  (get_available_files urljoin net base_url w).1 = Ok catalog ->
  r ∈ catalog ->
  2013 <= year r <= 2024
  ∧ 1 <= month r <= 12
  ∧ filename r = pattern_filename (year r) (month r)
  ∧ url r = urljoin base_url (filename r).
Proof.
  unfold get_available_files. intros Hrun Hr.
  destruct (discover urljoin net base_url grid w) as [res w'] eqn:Hpair.
  cbn [fst] in Hrun. subst res. apply discover_ok in Hpair as [-> _].
  apply elem_of_sort_by_key, elem_of_contributions in Hr as ([y m] & Hc & Hout).
  apply outcome_record in Hout as (<- & <- & Hname & Hurl & _).
  apply grid_spec in Hc as Hrange. destruct Hrange as [Hy Hm].
  split; [exact Hy|]. split; [exact Hm|]. split.
  - rewrite Hname. pose proof grid_filenames as Hall.
    rewrite forallb_forall in Hall. apply list_elem_of_In, Hall in Hc.
    now apply String.eqb_eq in Hc.
  - rewrite Hurl, Hname. reflexivity.
Qed.

Lemma catalog_records_witness :
  2013 <= year mar2020 <= 2024
  ∧ 1 <= month mar2020 <= 12
  ∧ filename mar2020 = pattern_filename (year mar2020) (month mar2020)
  ∧ url mar2020 = urljoin_dir base (filename mar2020).
Proof.
  apply (catalog_records urljoin_dir store base empty_world [jan2020; mar2020]).
  - vm_compute. reflexivity.
  - apply list_elem_of_further, list_elem_of_here.
Defined.

Lemma months_bound (kept : list FileRecord) (months : list Z) (y : Z) :
  NoDup (key_of <$> kept) ->
  Forall (λ r, year r = y ∧ month r ∈ months) kept ->
  (length kept <= length months)%nat.
Proof.
  intros Hnd Hall.
  assert (Hmonths : NoDup (month <$> kept)).
  { revert Hnd Hall. induction kept as [|r l IH]; [constructor|].
    rewrite !fmap_cons. intros [Hr Hl]%NoDup_cons [[Hy _] Hrest]%Forall_cons.
    apply NoDup_cons. split; [|now apply IH].
    intros (r' & Hm & Hr')%list_elem_of_fmap. apply Hr.
    apply list_elem_of_fmap. exists r'. split; [|exact Hr'].
    rewrite Forall_forall in Hrest. destruct (Hrest r' Hr') as [Hy' _].
    unfold key_of. congruence. }
  rewrite <- (length_fmap month kept).
  apply submseteq_length, NoDup_submseteq; [exact Hmonths|].
  intros m (r & -> & Hr)%list_elem_of_fmap.
  rewrite Forall_forall in Hall. now apply (Hall r Hr).
Qed.

(** X24: from a catalog [get_available_files] returned, the year filter
    (year other than 0) selects at most 12 records and the quarter filter
    (valid quarter) at most 3. *)
Theorem selection_sizes (urljoin : url_joiner) (net : network)
    (base_url : string) (w : world) (catalog : Catalog) (y q : Z) :
  (get_available_files urljoin net base_url w).1 = Ok catalog ->
  y ≠ 0 -> valid_quarter q ->
  (length (filter_files_by_year catalog (Some y)) <= 12)%nat
  ∧ ∃ kept, filter_files_by_quarter catalog (Some y) (Some q) = Ok kept
            ∧ (length kept <= 3)%nat.
Proof.
  unfold get_available_files. intros Hrun Hy Hq.
  destruct (discover urljoin net base_url grid w) as [res w'] eqn:Hpair.
  cbn [fst] in Hrun. subst res. apply discover_ok in Hpair as Hcat.
  destruct Hcat as [Hcat _].
  assert (Hkeys : NoDup (key_of <$> catalog)).
  { rewrite Hcat. apply catalog_keys_distinct, grid_NoDup. }
  assert (Hmonths : ∀ r, r ∈ catalog -> month r ∈ seqZ 1 12).
  { intros r Hr. destruct (catalog_members _ _ _ _ _ _ _ r Hpair Hr) as (Hkey & _).
    apply grid_spec in Hkey. apply elem_of_seqZ. lia. }
  assert (Hsub : ∀ b, NoDup (key_of <$> List.filter b catalog)).
  { intros b. apply (sublist_NoDup _ (key_of <$> catalog)); [exact Hkeys|].
    apply fmap_sublist, bool_filter_sublist. }
  split.
  - rewrite (year_filter_eq catalog y Hy).
    apply (months_bound _ (seqZ 1 12) y); [apply Hsub|].
    apply Forall_forall. intros r [Hr Hb]%list_elem_of_In%filter_In.
    cbn [eq_arg] in Hb. apply Z.eqb_eq in Hb.
    split; [exact Hb | now apply Hmonths, list_elem_of_In].
  - eexists. split; [apply (quarter_filter_eq catalog y q Hy Hq)|].
    transitivity (length (quarter_group q)).
    + apply (months_bound _ (quarter_group q) y); [apply Hsub|].
      apply Forall_forall. intros r [Hr Hb]%list_elem_of_In%filter_In.
      apply andb_true_iff in Hb as [Hyear Hmonth]. cbn [eq_arg] in Hyear.
      apply Z.eqb_eq in Hyear. now apply int_in_spec in Hmonth.
    + apply valid_quarter_cases in Hq as [-> | [-> | [-> | ->]]]; reflexivity.
Qed.

Lemma selection_sizes_witness :
  (length (filter_files_by_year [jan2020; mar2020] (Some 2020%Z)) <= 12)%nat.
Proof.
  apply (selection_sizes urljoin_dir store base empty_world [jan2020; mar2020] 2020 1).
  - vm_compute. reflexivity.
  - lia.
  - apply valid_quarter_cases. lia.
Defined.

End MainProps.
